(** * deckkit-feeds: the feed ingestion scripts, embedded and verified

    This development embeds the ingestion scripts of the repository,

    - [scripts/ingest-rss.js], which persists to the local file system
      (module [Fs]), and
    - the object-storage script, which uploads with [PutObjectCommand]
      (module [R2]),

    and proves properties of their title formatter, content addressor,
    conditional fetcher and per-source synchronisation cycle.  An earlier
    copy of the file-system script has the [main] of [scripts/ingest-rss.js]
    and the title separator of the object-storage script; what is proved of
    [R2.wrapTitle] holds of its [wrapTitle] too.

    Conventions of the embedding.

    - A JavaScript string is the list of its UTF-8 bytes ([string]).  The
      scripts are stored in UTF-8 and [crypto] hashes the UTF-8 encoding, so
      this is the representation the code acts on; splitting on a separator
      that is itself well-formed UTF-8 cuts at the same places as on UTF-16
      code units.
    - A field that may be [undefined] or [null] is an [option string].
    - Code that may throw is a computation in the monad [M], which threads
      the store and ends in a [completion]; [try]/[catch] is [try_catch].
    - What the scripts obtain from outside (the HTTP reply, the feed parser,
      the sanitizer package, the clock, [Date.parse], the Base64 decoder,
      failures of writes and uploads) is an explicit argument, bundled in
      the record [World].
    - A stored document is the value that the script serialises, not its
      JSON text.
    - Logging and the exit code of the process are left out.  [main] is
      given what [fs.readdirSync] lists, so it stands for the run from the
      listing on, after the three top-level directories are in place.
      Directories are not part of the store: whether the statement that
      makes the directory of a source throws is an answer of [World].
    - Paths are relative to the repository root and joined as [path.join]
      joins a directory and one further segment, the segments [.] and [..]
      and the empty segment included. *)

From Stdlib Require Import ZArith String Ascii List Lia Bool.
From stdpp Require Import base option list strings pretty gmap.

Open Scope string_scope.
Open Scope Z_scope.

(** ** JavaScript values and operators used by the scripts *)

Module JS.

(** Truthiness of a value that is a string, [undefined] or [null]. *)
Definition truthy (v : option string) : bool :=
  match v with
  | Some s => negb (String.eqb s "")
  | None => false
  end.

(** [a || b] on such values. *)
Definition or (a b : option string) : option string :=
  if truthy a then a else b.

(** [a || 'literal'], whose result is always a string. *)
Definition or_str (a : option string) (b : string) : string :=
  match a with
  | Some s => if String.eqb s "" then b else s
  | None => b
  end.

(** A number as [Date.parse] returns it: [NaN] or an integral value. *)
Inductive number := NaN | Num (z : Z).

(** [n || m] where [m] is a proper number: [NaN] and [0] are falsy. *)
Definition num_or (n : number) (m : Z) : Z :=
  match n with
  | NaN => m
  | Num z => if Z.eqb z 0 then m else z
  end.

(** [s.startsWith(p)]. *)
Definition startsWith (p s : string) : bool := String.prefix p s.

(** The string left after dropping the first [n] bytes. *)
Fixpoint drop (n : nat) (s : string) : string :=
  match n, s with
  | O, _ => s
  | S _, EmptyString => EmptyString
  | S k, String _ s' => drop k s'
  end.

(** [s.endsWith(p)]. *)
Definition endsWith (p s : string) : bool :=
  (String.length p <=? String.length s)%nat
  && String.eqb (drop (String.length s - String.length p) s) p.

(** [s.split(sep)] for a non-empty separator, scanning left to right as
    the language specification does: at each position either the
    separator matches, which closes the current segment and skips the
    separator, or the byte joins the current segment.  [skip] counts the
    bytes of a matched separator still to be passed over. *)
Fixpoint split_from (sep : string) (skip : nat) (s : string) : list string :=
  match s with
  | EmptyString => [EmptyString]
  | String c s' =>
      match skip with
      | S k => split_from sep k s'
      | O =>
          if String.prefix sep s
          then EmptyString :: split_from sep (String.length sep - 1) s'
          else match split_from sep 0 s' with
               | seg :: segs => String c seg :: segs
               | [] => [String c EmptyString]
               end
      end
  end.

Definition split (sep s : string) : list string := split_from sep 0 s.

(** [parts.join(sep)]. *)
Fixpoint join (sep : string) (parts : list string) : string :=
  match parts with
  | [] => EmptyString
  | [p] => p
  | p :: ps => p +:+ sep +:+ join sep ps
  end.

(** [s.includes(p)]: [p] occurs somewhere in [s]. *)
Fixpoint includes (p s : string) : bool :=
  String.prefix p s
  || match s with
     | EmptyString => false
     | String _ s' => includes p s'
     end.

(** [s.replace(pat, rep)] with a string pattern: the first occurrence
    only. *)
Fixpoint replace (pat rep s : string) : string :=
  if String.prefix pat s then rep +:+ drop (String.length pat) s
  else match s with
       | EmptyString => EmptyString
       | String c s' => String c (replace pat rep s')
       end.

End JS.

(** ** Title formatter *)

(** The byte of the double quote, which the templates contain. *)
Definition dquote : string := String "034"%char EmptyString.

(** The separator of [scripts/ingest-rss.js]: space, U+2014 EM DASH, space. *)
Definition TITLE_SEP : string := " — ".

(** The separator as the object-storage script and the earlier copy of
    the file-system script spell it: space, U+00E2, U+20AC, U+201D, space
    (the three bytes of the em dash read as Windows-1252 and stored again
    as UTF-8). *)
Definition TITLE_SEP_R2 : string := " â€” ".

(** The template of a secondary heading. *)
Definition h2 (part : string) : string := "<h2>" +:+ part +:+ "</h2>".

(** [wrapTitle] with the separator as a parameter; the body is the same in
    every copy of the function. *)
Definition wrapTitle_with (sep title link : string) : string :=
  let parts := JS.split sep title in
  let html := "<h1><a href=" +:+ dquote +:+ link +:+ dquote
              +:+ " target=" +:+ dquote +:+ "_blank" +:+ dquote +:+ ">"
              +:+ hd EmptyString parts +:+ "</a></h1>" in
  fold_left (fun html part => html +:+ h2 part) (tl parts) html.

(** [wrapTitle] of [scripts/ingest-rss.js]. *)
Definition wrapTitle (title link : string) : string :=
  wrapTitle_with TITLE_SEP title link.

(** ** Content addressor *)

(** SHA-256 as FIPS 180-4 defines it, on 32-bit words held in [Z] with the
    wrap-around written out.  [crypto.createHash('sha256')] computes this
    function; the script stores no table of its own, so the round constants
    and the initial state are derived from their definition (fractional
    parts of the cube and square roots of the first primes). *)
Module Sha256.

Definition wrap (x : Z) : Z := x mod 2 ^ 32.
Definition add (x y : Z) : Z := wrap (x + y).
Definition rotr (n x : Z) : Z :=
  Z.lor (Z.shiftr x n) (wrap (Z.shiftl x (32 - n))).
Definition shr (n x : Z) : Z := Z.shiftr x n.
Definition not32 (x : Z) : Z := Z.lxor x (2 ^ 32 - 1).

Definition Ch (x y z : Z) : Z := Z.lxor (Z.land x y) (Z.land (not32 x) z).
Definition Maj (x y z : Z) : Z :=
  Z.lxor (Z.lxor (Z.land x y) (Z.land x z)) (Z.land y z).
Definition Sigma0 (x : Z) : Z :=
  Z.lxor (Z.lxor (rotr 2 x) (rotr 13 x)) (rotr 22 x).
Definition Sigma1 (x : Z) : Z :=
  Z.lxor (Z.lxor (rotr 6 x) (rotr 11 x)) (rotr 25 x).
Definition sigma0 (x : Z) : Z :=
  Z.lxor (Z.lxor (rotr 7 x) (rotr 18 x)) (shr 3 x).
Definition sigma1 (x : Z) : Z :=
  Z.lxor (Z.lxor (rotr 17 x) (rotr 19 x)) (shr 10 x).

(** The first 64 primes, by trial division. *)
Definition is_prime (n : nat) : bool :=
  forallb (fun d => negb (Nat.eqb (n mod d) 0)) (seq 2 (n - 2)).
Definition primes : list Z :=
  map Z.of_nat (filter is_prime (seq 2 310)).

(** Integer cube root, bit by bit from bit [bits - 1] down. *)
Fixpoint icbrt_from (bits : nat) (n r : Z) : Z :=
  match bits with
  | O => r
  | S b =>
      let r' := r + 2 ^ Z.of_nat b in
      icbrt_from b n (if r' * r' * r' <=? n then r' else r)
  end.
Definition icbrt (n : Z) : Z := icbrt_from 40 n 0.

Definition K : list Z :=
  Eval vm_compute in map (fun p => wrap (icbrt (p * 2 ^ 96))) primes.
Definition H0 : list Z :=
  Eval vm_compute in map (fun p => wrap (Z.sqrt (p * 2 ^ 64))) (firstn 8 primes).

(** Padding: the byte 0x80, zero bytes up to 56 modulo 64, and the length
    in bits as eight big-endian bytes. *)
Definition be_bytes (n : nat) (x : Z) : list Z :=
  map (fun i => Z.land (Z.shiftr x (8 * Z.of_nat (n - 1 - i))) 255) (seq 0 n).
Definition pad (msg : list Z) : list Z :=
  let len := Z.of_nat (length msg) in
  (msg ++ [128] ++ repeat 0 (Z.to_nat ((55 - len) mod 64)) ++ be_bytes 8 (8 * len))%list.

Definition be_word (bs : list Z) : Z :=
  fold_left (fun acc b => acc * 256 + b) bs 0.

(** Cuts a list into pieces of [n] elements; [fuel] bounds the number of
    pieces. *)
Fixpoint chunks {A} (fuel n : nat) (l : list A) : list (list A) :=
  match fuel, l with
  | O, _ | _, [] => []
  | S f, _ => firstn n l :: chunks f n (skipn n l)
  end.

Definition block_words (block : list Z) : list Z :=
  map be_word (chunks 16 4 block).

(** Message schedule: sixteen words of the block, then 48 derived ones. *)
Definition extend (w : list Z) : list Z :=
  let t := length w in
  let at_ i := nth (t - i) w 0 in
  (w ++ [add (add (sigma1 (at_ 2%nat)) (at_ 7%nat))
             (add (sigma0 (at_ 15%nat)) (at_ 16%nat))])%list.
Definition schedule (block : list Z) : list Z :=
  Nat.iter 48 extend (block_words block).

Record state := State { a : Z; b : Z; c : Z; d : Z; e : Z; f : Z; g : Z; h : Z }.

Definition round (s : state) (kw : Z * Z) : state :=
  let t1 := add (add (add (h s) (Sigma1 (e s))) (add (Ch (e s) (f s) (g s)) (fst kw))) (snd kw) in
  let t2 := add (Sigma0 (a s)) (Maj (a s) (b s) (c s)) in
  State (add t1 t2) (a s) (b s) (c s) (add (d s) t1) (e s) (f s) (g s).

Definition compress (s : state) (block : list Z) : state :=
  let r := fold_left round (combine K (schedule block)) s in
  State (add (a s) (a r)) (add (b s) (b r)) (add (c s) (c r)) (add (d s) (d r))
        (add (e s) (e r)) (add (f s) (f r)) (add (g s) (g r)) (add (h s) (h r)).

Definition init : state :=
  let w i := nth i H0 0 in
  State (w 0%nat) (w 1%nat) (w 2%nat) (w 3%nat) (w 4%nat) (w 5%nat) (w 6%nat) (w 7%nat).

Definition hash_bytes (msg : list Z) : state :=
  let p := pad msg in
  fold_left compress (chunks (length p) 64 p) init.

(** [digest('hex')]: eight words, eight lowercase hexadecimal digits
    each. *)
Definition hex_digit (n : Z) : ascii :=
  nth (Z.to_nat (Z.land n 15))
      (list_ascii_of_string "0123456789abcdef") "0"%char.

Definition hex_word (x : Z) (rest : string) : string :=
  String (hex_digit (Z.shiftr x 28)) (String (hex_digit (Z.shiftr x 24))
  (String (hex_digit (Z.shiftr x 20)) (String (hex_digit (Z.shiftr x 16))
  (String (hex_digit (Z.shiftr x 12)) (String (hex_digit (Z.shiftr x 8))
  (String (hex_digit (Z.shiftr x 4)) (String (hex_digit x) rest))))))).

Definition hex (s : state) : string :=
  hex_word (a s) (hex_word (b s) (hex_word (c s) (hex_word (d s)
  (hex_word (e s) (hex_word (f s) (hex_word (g s) (hex_word (h s) EmptyString))))))).

(** [update(text)]: the bytes of the string. *)
Definition bytes_of (text : string) : list Z :=
  map (fun ch => Z.of_N (N_of_ascii ch)) (list_ascii_of_string text).

Definition hexdigest (text : string) : string := hex (hash_bytes (bytes_of text)).

End Sha256.

(** [getHash]: the first twelve characters of the hexadecimal digest. *)
Definition getHash (text : string) : string :=
  String.substring 0 12 (Sha256.hexdigest text).

(** A lowercase hexadecimal digit. *)
Definition is_lower_hex (ch : ascii) : bool :=
  existsb (Ascii.eqb ch) (list_ascii_of_string "0123456789abcdef").

(** ** Sanitizer *)

(** The two options the scripts pass to the [sanitize-html] package. *)
Record SanitizeOptions := {
  allowedTags : list string;
  allowedAttributes : list (string * list string);
}.

Definition ALLOWED_TAGS : list string :=
  ["h1"; "h2"; "h3"; "h4"; "h5"; "h6"; "p"; "ul"; "li"; "strong"; "em"; "a";
   "br"; "div"; "img"; "span"].

Definition ALLOWED_ATTRIBUTES : list (string * list string) :=
  [("a", ["href"; "rel"; "target"]);
   ("img", ["loading"; "src"; "alt"; "title"]);
   ("span", ["class"; "style"])].

(** The package itself is not part of the repository: it is the argument
    [sanitizeHtml]. *)
Definition cleanHtml (sanitizeHtml : string -> SanitizeOptions -> string)
    (html : option string) : string :=
  if negb (JS.truthy html) then EmptyString
  else sanitizeHtml (default EmptyString html)
         {| allowedTags := ALLOWED_TAGS; allowedAttributes := ALLOWED_ATTRIBUTES |}.

(** ** Items *)

(** An entry as the feed parser returns it. *)
Record RawItem := {
  raw_guid : option string;
  raw_link : option string;
  raw_title : option string;
  raw_pubDate : option string;
  raw_contentEncoded : option string;
  raw_content : option string;
  raw_summary : option string;
  raw_description : option string;
}.

(** The object that [main] builds and [prettifyItem] updates in place; a
    field not yet assigned is [None]. *)
Record Item := {
  guid : option string;
  title : option string;
  link : option string;
  pubDate : option string;
  description : option string;
  timestamp : Z;
  source : option string;
  category : option string;
}.

Definition prettifyItem_with (sep : string)
    (sanitizeHtml : string -> SanitizeOptions -> string)
    (item : Item) (sourceHash : string) : Item :=
  {| guid := guid item;
     title := Some (wrapTitle_with sep (JS.or_str (title item) "No Title")
                                   (JS.or_str (link item) "#"));
     link := link item;
     pubDate := pubDate item;
     description :=
       Some (cleanHtml sanitizeHtml (Some (JS.or_str (description item) EmptyString)));
     timestamp := timestamp item;
     source := Some sourceHash;
     category := Some EmptyString |}.

(** [prettifyItem] of [scripts/ingest-rss.js]. *)
Definition prettifyItem := prettifyItem_with TITLE_SEP.

Record ManifestEntry := { g : string; h : string }.

(** ** Persistent state and effects *)

(** The validators and the encoded URL of a source configuration file. *)
Record Source := {
  u : string;
  etag : option string;
  lastModified : option string;
}.

(** What a stored file or object holds.  The scripts write
    [JSON.stringify (value, null, 2)]; the value stands for its text. *)
Inductive Doc :=
| ItemDoc (item : Item)
| ManifestDoc (manifest : list ManifestEntry)
| SourceDoc (src : Source)
| TextDoc (text : string).

(** The local file system and the bucket, both from path or key to
    content. *)
Record Store := {
  files : gmap string Doc;
  bucket : gmap string Doc;
}.

(** How a computation ends: normally with a value, or by throwing an error
    with a message. *)
Inductive completion (A : Type) :=
| Normal (v : A)
| Throw (message : string).
Arguments Normal {A} v.
Arguments Throw {A} message.

(** Computations over the store that may throw; the store reached is kept
    in both cases, as writes done before a throw stay done. *)
Definition M (A : Type) : Type := Store -> completion A * Store.

Definition ret {A} (v : A) : M A := fun st => (Normal v, st).
Definition throw {A} (msg : string) : M A := fun st => (Throw msg, st).
Definition bind {A B} (m : M A) (k : A -> M B) : M B :=
  fun st =>
    match m st with
    | (Normal v, st') => k v st'
    | (Throw msg, st') => (Throw msg, st')
    end.
Definition try_catch {A} (m : M A) (handler : string -> M A) : M A :=
  fun st =>
    match m st with
    | (Normal v, st') => (Normal v, st')
    | (Throw msg, st') => handler msg st'
    end.

Notation "'let*' x ':=' m 'in' k" := (bind m (fun x => k))
  (at level 10, x pattern, m at level 100, k at level 200).

(** Statements in sequence, from a list, as a [for ... of] loop runs them. *)
Fixpoint for_each {A} (body : A -> M unit) (l : list A) : M unit :=
  match l with
  | [] => ret tt
  | x :: rest => let* _ := body x in for_each body rest
  end.

(** An HTTP reply: the status, the body as [response.text()] delivers it
    (reading it can fail), and the two caching headers. *)
Record Response := {
  status : Z;
  text : completion string;
  header_etag : option string;
  header_last_modified : option string;
}.

(** [response.ok]. *)
Definition ok (r : Response) : bool := (200 <=? status r) && (status r <=? 299).

(** Everything a run obtains from outside the script.  Functions that the
    script calls once per source or per item take the source file name, and
    the position of the item in its feed, so that each call can have an
    answer of its own. *)
Record World := {
  sanitizeHtml : string -> SanitizeOptions -> string;
  (** [parser.parseString]: the items of the feed, or a parse error. *)
  parseString : string -> completion (list RawItem);
  Date_parse : option string -> JS.number;
  (** [Date.now()] while the given item of the given source is handled. *)
  Date_now : string -> nat -> Z;
  (** [fetch (url, {headers, signal})]: a reply, or a rejection (network
      error, or the abort after 15000 ms). *)
  fetch : string -> list (string * string) -> completion Response;
  (** [Buffer.from (s, 'base64').toString ('utf8')]. *)
  base64_decode : string -> string;
  (** Whether [fs.writeFileSync] throws on a path. *)
  write_fails : string -> bool;
  (** Whether [if (!fs.existsSync (dir)) fs.mkdirSync (dir, {recursive:
      true})] throws for a directory. *)
  mkdir_fails : string -> bool;
  (** Whether the upload of a key is rejected. *)
  put_fails : string -> bool;
}.

(** The result object of [fetchFeed]. *)
Record FetchResult := {
  modified : bool;
  xml : option string;
  res_etag : option string;
  res_lastModified : option string;
  error : option string;
}.

Definition lift {A} (c : completion A) : M A := fun st => (c, st).

Definition request_headers (etag lastModified : option string) : list (string * string) :=
  ((if JS.truthy etag then [("If-None-Match", default EmptyString etag)] else [])
   ++ (if JS.truthy lastModified
       then [("If-Modified-Since", default EmptyString lastModified)] else []))%list.

(** The two shapes of a result without a body. *)
Definition no_change : FetchResult :=
  {| modified := false; xml := None; res_etag := None;
     res_lastModified := None; error := None |}.
Definition failed (message : string) : FetchResult :=
  {| modified := false; xml := None; res_etag := None;
     res_lastModified := None; error := Some message |}.

Definition fetchFeed (w : World) (url : string) (etag lastModified : option string)
  : M FetchResult :=
  let headers := request_headers etag lastModified in
  try_catch
    (let* response := lift (fetch w url headers) in
     if status response =? 304
     then ret no_change
     else if negb (ok response)
     then throw ("HTTP " +:+ pretty (status response))
     else
       let* body := lift (text response) in
       ret {| modified := true; xml := Some body;
              res_etag := header_etag response;
              res_lastModified := header_last_modified response;
              error := None |})
    (fun message => ret (failed message)).

(** ** Paths and primitive effects *)

(** Directories, relative to the repository root (the parent of the
    directory of the script). *)
Definition SOURCES_DIR : string := "data/sources".
Definition FEEDS_DIR : string := "feeds".
Definition ITEMS_ROOT : string := "items".

(** The directory above a relative path: the path without its last
    segment, and [.] above a single segment. *)
Definition parent_dir (dir : string) : string :=
  match rev (JS.split "/" dir) with
  | _ :: (_ :: _) as above => JS.join "/" (rev above)
  | _ => "."
  end.

(** [path.join (dir, name)] for a directory in normal form and a [name]
    of one segment: an empty segment and [.] leave the directory, [..]
    goes to the directory above, and [.] as the directory is dropped
    before a name. *)
Definition path_join (dir name : string) : string :=
  if String.eqb name "" || String.eqb name "." then dir
  else if String.eqb name ".." then parent_dir dir
  else if String.eqb dir "." then name
  else dir +:+ "/" +:+ name.

(** [if (!fs.existsSync (dir)) fs.mkdirSync (dir, {recursive: true})]. *)
Definition ensure_dir (w : World) (dir : string) : M unit :=
  fun st =>
    if mkdir_fails w dir
    then (Throw ("EACCES: permission denied, mkdir " +:+ dir), st)
    else (Normal tt, st).

Definition existsSync (path : string) : M bool :=
  fun st => (Normal (bool_decide (is_Some (files st !! path))), st).

Definition writeFileSync (w : World) (path : string) (doc : Doc) : M unit :=
  fun st =>
    if write_fails w path
    then (Throw ("EACCES: permission denied, open " +:+ path), st)
    else (Normal tt, {| files := <[path := doc]> (files st); bucket := bucket st |}).

(** [JSON.parse (fs.readFileSync (path, 'utf8'))] of a source file: throws
    when the file is missing or does not hold a source configuration. *)
Definition readSource (path : string) : M Source :=
  fun st =>
    match files st !! path with
    | Some (SourceDoc src) => (Normal src, st)
    | _ => (Throw ("cannot read source " +:+ path), st)
    end.

(** [uploadToR2]: the rejection of an upload is caught and logged inside,
    so the call itself always completes. *)
Definition uploadToR2 (w : World) (key : string) (data : Doc) : M unit :=
  try_catch
    (fun st =>
       if put_fails w key
       then (Throw ("upload rejected: " +:+ key), st)
       else (Normal tt, {| files := files st; bucket := <[key := data]> (bucket st) |}))
    (fun _ => ret tt).

(** [getHash (guid)] as called from [main]: [update] throws a [TypeError]
    on [undefined]. *)
Definition getHash_of (guid : option string) : M string :=
  match guid with
  | Some text => ret (getHash text)
  | None => throw "The data argument must be of type string"
  end.

(** ** The synchronisation cycle *)

(** The object literal handed to [prettifyItem]. *)
Definition new_item (w : World) (file : string) (i : nat) (item : RawItem)
    (guid : option string) : Item :=
  {| guid := guid;
     title := raw_title item;
     link := raw_link item;
     pubDate := raw_pubDate item;
     description :=
       JS.or (JS.or (JS.or (raw_contentEncoded item) (raw_content item))
                    (raw_summary item))
             (raw_description item);
     timestamp := JS.num_or (Date_parse w (raw_pubDate item)) (Date_now w file i);
     source := None;
     category := None |}.

Definition entry_of (guid itemHash : string) : ManifestEntry :=
  {| g := guid; h := itemHash |}.

(** The name under which a source publishes: [file.replace ('.json', '')]. *)
Definition sourceHash_of (file : string) : string :=
  JS.replace ".json" EmptyString file.

(** The file-system script, [scripts/ingest-rss.js]. *)
Module Fs.

Definition item_dir (sourceHash : string) : string :=
  path_join ITEMS_ROOT sourceHash.
Definition item_path (sourceHash itemHash : string) : string :=
  path_join (item_dir sourceHash) (itemHash +:+ ".json").
Definition manifest_path (sourceHash : string) : string :=
  path_join FEEDS_DIR (sourceHash +:+ ".json").
Definition source_path (file : string) : string := path_join SOURCES_DIR file.

(** The loop over [feed.items]; [i] is the position of the first item of
    [items] in the feed and [manifest] the array built so far. *)
Fixpoint sync_items (w : World) (file sourceHash : string) (i : nat)
    (items : list RawItem) (manifest : list ManifestEntry)
  : M (list ManifestEntry) :=
  match items with
  | [] => ret manifest
  | item :: rest =>
      let guid := JS.or (raw_guid item) (raw_link item) in
      let* itemHash := getHash_of guid in
      let manifest := (manifest ++ [entry_of (default EmptyString guid) itemHash])%list in
      let itemPath := item_path sourceHash itemHash in
      let* present := existsSync itemPath in
      let* _ :=
        if negb present
        then
          let processed :=
            prettifyItem (sanitizeHtml w) (new_item w file i item guid) sourceHash in
          writeFileSync w itemPath (ItemDoc processed)
        else ret tt in
      sync_items w file sourceHash (S i) rest manifest
  end.

(** The body of the [try] block of one source. *)
Definition cycle (w : World) (file sourceHash : string) (src : Source) : M unit :=
  let feedUrl := base64_decode w (u src) in
  let* result := fetchFeed w feedUrl (etag src) (lastModified src) in
  if modified result
  then
    let* items := lift (parseString w (default EmptyString (xml result))) in
    let* manifest := sync_items w file sourceHash 0 items [] in
    let* _ := writeFileSync w (manifest_path sourceHash) (ManifestDoc manifest) in
    let src' := {| u := u src;
                   etag := Some (JS.or_str (res_etag result) EmptyString);
                   lastModified := Some (JS.or_str (res_lastModified result) EmptyString) |} in
    writeFileSync w (source_path file) (SourceDoc src')
  else ret tt.

(** The body of the loop over the source files: reading the source and
    making its item directory are outside the [try], the cycle inside; an
    error of the cycle is logged and the loop goes on. *)
Definition process_source (w : World) (file : string) : M unit :=
  let* src := readSource (source_path file) in
  let sourceHash := sourceHash_of file in
  let* _ := ensure_dir w (item_dir sourceHash) in
  try_catch (cycle w file sourceHash src) (fun _ => ret tt).

(** [main], given what [fs.readdirSync (SOURCES_DIR)] lists. *)
Definition main (w : World) (listing : list string) : M unit :=
  let sourceFiles := filter (fun file => JS.endsWith ".json" file = true) listing in
  let* _ := for_each (process_source w) sourceFiles in
  writeFileSync w (path_join ITEMS_ROOT ".nojekyll") (TextDoc EmptyString).

End Fs.

(** The object-storage script.  Uploads are started in feed order and
    joined before the metadata is written; they are modelled as completing
    in the order in which they are started. *)
Module R2.

Definition wrapTitle (title link : string) : string :=
  wrapTitle_with TITLE_SEP_R2 title link.

Definition prettifyItem := prettifyItem_with TITLE_SEP_R2.

Definition item_key (sourceHash itemHash : string) : string :=
  "items/" +:+ sourceHash +:+ "/" +:+ itemHash +:+ ".json".
Definition manifest_key (sourceHash : string) : string :=
  "feeds/" +:+ sourceHash +:+ ".json".

Fixpoint sync_items (w : World) (file sourceHash : string) (i : nat)
    (items : list RawItem) (manifest : list ManifestEntry)
  : M (list ManifestEntry) :=
  match items with
  | [] => ret manifest
  | item :: rest =>
      let guid := JS.or (raw_guid item) (raw_link item) in
      let* itemHash := getHash_of guid in
      let manifest := (manifest ++ [entry_of (default EmptyString guid) itemHash])%list in
      let processed :=
        prettifyItem (sanitizeHtml w) (new_item w file i item guid) sourceHash in
      let* _ := uploadToR2 w (item_key sourceHash itemHash) (ItemDoc processed) in
      sync_items w file sourceHash (S i) rest manifest
  end.

Definition cycle (w : World) (file sourceHash : string) (src : Source) : M unit :=
  let feedUrl := base64_decode w (u src) in
  let* result := fetchFeed w feedUrl (etag src) (lastModified src) in
  if modified result
  then
    let* items := lift (parseString w (default EmptyString (xml result))) in
    let* manifest := sync_items w file sourceHash 0 items [] in
    let* _ := uploadToR2 w (manifest_key sourceHash) (ManifestDoc manifest) in
    let src' := {| u := u src;
                   etag := Some (JS.or_str (res_etag result) EmptyString);
                   lastModified := Some (JS.or_str (res_lastModified result) EmptyString) |} in
    writeFileSync w (Fs.source_path file) (SourceDoc src')
  else ret tt.

Definition process_source (w : World) (file : string) : M unit :=
  let* src := readSource (Fs.source_path file) in
  let sourceHash := sourceHash_of file in
  try_catch (cycle w file sourceHash src) (fun _ => ret tt).

Definition main (w : World) (listing : list string) : M unit :=
  let sourceFiles := filter (fun file => JS.endsWith ".json" file = true) listing in
  for_each (process_source w) sourceFiles.

End R2.

(** * What the properties speak of *)

(** The [<h1>] that the formatter is to produce for a link and the text of
    the first segment. *)
Definition h1 (link first : string) : string :=
  "<h1><a href=" +:+ dquote +:+ link +:+ dquote
  +:+ " target=" +:+ dquote +:+ "_blank" +:+ dquote +:+ ">"
  +:+ first +:+ "</a></h1>".

(** The manifest entry of a feed item: its identifier (the guid, or else
    the link) and the key derived from it. *)
Definition identifier (item : RawItem) : option string :=
  JS.or (raw_guid item) (raw_link item).
Definition manifest_entry (item : RawItem) : ManifestEntry :=
  entry_of (default EmptyString (identifier item))
           (getHash (default EmptyString (identifier item))).



(** The validators stored for a source file, if the file holds a source
    configuration. *)
Definition validators (st : Store) (file : string)
  : option (option string * option string) :=
  match files st !! Fs.source_path file with
  | Some (SourceDoc src) => Some (etag src, lastModified src)
  | _ => None
  end.

(** What stands before the key in the path of an item of a source:
    [items/<source>/] for a source of a plain name, [items/] for the
    names that [path.join] drops (the empty one and [.]), and nothing for
    [..], whose items go to the repository root. *)
Definition item_prefix (sourceHash : string) : string :=
  if String.eqb sourceHash "" || String.eqb sourceHash "." then "items/"
  else if String.eqb sourceHash ".." then EmptyString
  else "items/" +:+ sourceHash +:+ "/".

(** The item document stored under a path or key, if there is one. *)
Definition stored_item (store : gmap string Doc) (key : string) : option Item :=
  match store !! key with
  | Some (ItemDoc item) => Some item
  | _ => None
  end.

(** Several runs of [main] one after the other, each in a world of its own
    and with its own listing of the sources directory. *)
Definition runs (main : World -> list string -> M unit)
    (worlds : list (World * list string)) (st : Store) : Store :=
  fold_left (fun st wl => snd (main (fst wl) (snd wl) st)) worlds st.

(** The allow-lists as the specification words them: the tags h1 to h6, p,
    ul, li, strong, em, a, br, div, img and span; on an anchor the
    attributes href, rel and target, on an image loading, src, alt and
    title, on a span class and style. *)
Definition spec_allowed_tag (tag : string) : Prop :=
  In tag ["h1"; "h2"; "h3"; "h4"; "h5"; "h6"; "p"; "ul"; "li"; "strong"; "em";
          "a"; "br"; "div"; "img"; "span"].

Definition spec_allowed_attribute (tag attribute : string) : Prop :=
  (tag = "a" /\ In attribute ["href"; "rel"; "target"])
  \/ (tag = "img" /\ In attribute ["loading"; "src"; "alt"; "title"])
  \/ (tag = "span" /\ In attribute ["class"; "style"]).

(** * Example inputs *)

(** The title of the specification's example, and the link. *)
Definition title_ABC : string := "A — B — C".
Definition link_x : string := "http://x".

(** ** An example world *)

(** A sanitizer that leaves no markup at all: it writes every [<] as the
    entity [&lt;]. *)
Fixpoint escape_markup (html : string) : string :=
  match html with
  | EmptyString => EmptyString
  | String ch rest =>
      if Ascii.eqb ch "<" then "&lt;" +:+ escape_markup rest
      else String ch (escape_markup rest)
  end.

(** A plain reading of the markup of an HTML text: what stands between a
    [<] and the next [>] is the body of a tag; its first word, without a
    leading [/], is the name of the tag, and the part before [=] of every
    further word is the name of an attribute. *)
Fixpoint tag_bodies (inside : option string) (html : string) : list string :=
  match html with
  | EmptyString => match inside with Some body => [body] | None => [] end
  | String ch rest =>
      match inside with
      | None =>
          if Ascii.eqb ch "<" then tag_bodies (Some EmptyString) rest
          else tag_bodies None rest
      | Some body =>
          if Ascii.eqb ch ">" then body :: tag_bodies None rest
          else tag_bodies (Some (body +:+ String ch EmptyString)) rest
      end
  end.

Definition words (body : string) : list string :=
  filter (fun word => word <> EmptyString) (JS.split " " body).

Definition tag_name (body : string) : string :=
  let word := hd EmptyString (words body) in
  if String.prefix "/" word then JS.drop 1 word else word.

Definition scan_tags (html : string) : list string :=
  map tag_name (tag_bodies None html).

Definition scan_attributes (html : string) : list (string * string) :=
  flat_map (fun body =>
              map (fun word => (tag_name body, hd EmptyString (JS.split "=" word)))
                  (tl (words body)))
           (tag_bodies None html).

(** Decimal numerals. *)
Definition digit (ch : ascii) : option Z :=
  let n := Z.of_N (N_of_ascii ch) - 48 in
  if (0 <=? n) && (n <=? 9) then Some n else None.

Fixpoint numeral_from (acc : Z) (s : string) : option Z :=
  match s with
  | EmptyString => Some acc
  | String ch rest =>
      match digit ch with
      | Some n => numeral_from (10 * acc + n) rest
      | None => None
      end
  end.

Definition numeral (s : string) : option Z :=
  match s with
  | EmptyString => None
  | _ => numeral_from 0 s
  end.

(** Days from 1 January 1970 to a date of the Gregorian calendar. *)
Definition days_from_epoch (year month day : Z) : Z :=
  let y := if month <=? 2 then year - 1 else year in
  let era := y / 400 in
  let year_of_era := y - era * 400 in
  let day_of_year := (153 * ((month + 9) mod 12) + 2) / 5 + day - 1 in
  let day_of_era :=
    year_of_era * 365 + year_of_era / 4 - year_of_era / 100 + day_of_year in
  era * 146097 + day_of_era - 719468.

Definition month_number (name : string) : option Z :=
  let months := ["Jan"; "Feb"; "Mar"; "Apr"; "May"; "Jun";
                 "Jul"; "Aug"; "Sep"; "Oct"; "Nov"; "Dec"] in
  option_map (fun i => Z.of_nat (fst i) + 1)
    (find (fun i => String.eqb (snd i) name) (combine (seq 0 12) months)).

(** [Date.parse] on the date format of RSS, as in
    [Sat, 01 Nov 2025 00:00:00 GMT]: milliseconds since the epoch, and [NaN]
    for a text of another shape and for [undefined]. *)
Definition Date_parse_rfc1123 (date : option string) : JS.number :=
  match JS.split " " (default EmptyString date) with
  | [_; dd; mon; yyyy; time; zone] =>
      match numeral dd, month_number mon, numeral yyyy, JS.split ":" time with
      | Some day, Some month, Some year, [hh; mm; ss] =>
          match numeral hh, numeral mm, numeral ss with
          | Some hour, Some minute, Some second =>
              if String.eqb zone "GMT"
              then JS.Num
                     ((((days_from_epoch year month day * 24 + hour) * 60 + minute)
                       * 60 + second) * 1000)
              else JS.NaN
          | _, _, _ => JS.NaN
          end
      | _, _, _, _ => JS.NaN
      end
  | _ => JS.NaN
  end.

(** Base64 with the standard alphabet, six bits at a time, for well-formed
    input. *)
Definition base64_value (ch : ascii) : option Z :=
  let alphabet :=
    list_ascii_of_string
      "ABCDEFGHIJKLMNOPQRSTUVWXYZabcdefghijklmnopqrstuvwxyz0123456789+/" in
  option_map (fun i => Z.of_nat (fst i))
    (find (fun i => Ascii.eqb (snd i) ch) (combine (seq 0 64) alphabet)).

(** [acc] holds the bits read and not yet given out, [bits] their number. *)
Fixpoint base64_from (acc : Z) (bits : Z) (s : string) : string :=
  match s with
  | EmptyString => EmptyString
  | String ch rest =>
      match base64_value ch with
      | None => EmptyString
      | Some v =>
          let acc := acc * 64 + v in
          let bits := bits + 6 in
          if 8 <=? bits
          then String (ascii_of_N (Z.to_N (Z.shiftr acc (bits - 8))))
                      (base64_from (Z.land acc (Z.ones (bits - 8))) (bits - 8) rest)
          else base64_from acc bits rest
      end
  end.

Definition base64_to_text (s : string) : string := base64_from 0 0 s.

Definition epoch_date : string := "Thu, 01 Jan 1970 00:00:00 GMT".
Definition nov_1 : string := "Sat, 01 Nov 2025 00:00:00 GMT".

(** The clock of the examples: 3 November 2025, 00:00:00 GMT. *)
Definition nov_3_millis : Z := 1762128000000.

(** A world in which the server gives [reply], the feed holds [items], the
    clock reads 3 November 2025 and no write fails. *)
Definition example_world (reply : completion Response) (items : list RawItem) : World :=
  {| sanitizeHtml := fun html _ => escape_markup html;
     parseString := fun _ => Normal items;
     Date_parse := Date_parse_rfc1123;
     Date_now := fun _ _ => nov_3_millis;
     fetch := fun _ _ => reply;
     base64_decode := base64_to_text;
     write_fails := fun _ => false;
     mkdir_fails := fun _ => false;
     put_fails := fun _ => false |}.

(** ** Replies, sources and items *)

Definition reply_304 : completion Response :=
  Normal {| status := 304; text := Normal EmptyString;
            header_etag := Some "v1"; header_last_modified := None |}.
Definition reply_500 : completion Response :=
  Normal {| status := 500; text := Normal "Internal Server Error";
            header_etag := None; header_last_modified := None |}.
Definition response_200 (etag lastModified : option string) : Response :=
  {| status := 200; text := Normal "<rss/>";
     header_etag := etag; header_last_modified := lastModified |}.
Definition reply_200 (etag lastModified : option string) : completion Response :=
  Normal (response_200 etag lastModified).

(** One configured source, stored as [data/sources/news.json]; its [u] is
    the Base64 text of [https://example.org/feed.xml]. *)
Definition example_source : Source :=
  {| u := "aHR0cHM6Ly9leGFtcGxlLm9yZy9mZWVkLnhtbA==";
     etag := Some "v1";
     lastModified := Some nov_1 |}.
Definition example_store : Store :=
  {| files := {[ Fs.source_path "news.json" := SourceDoc example_source ]};
     bucket := ∅ |}.

Definition example_item (title date : string) : RawItem :=
  {| raw_guid := Some "urn:post:1";
     raw_link := Some "https://example.org/post/1";
     raw_title := Some title;
     raw_pubDate := Some date;
     raw_contentEncoded := None;
     raw_content := Some "<p>Hello</p>";
     raw_summary := None;
     raw_description := None |}.

(** A second item, without a guid, and a store that already holds a
    manifest for the source, with an entry of an item that is no longer in
    the feed. *)
Definition second_item : RawItem :=
  {| raw_guid := None;
     raw_link := Some "https://example.org/post/2";
     raw_title := Some "Second";
     raw_pubDate := None;
     raw_contentEncoded := None;
     raw_content := None;
     raw_summary := None;
     raw_description := Some "text" |}.
Definition two_items : list RawItem := [example_item "First" nov_1; second_item].
Definition stale_manifest : list ManifestEntry :=
  [entry_of "urn:post:0" (getHash "urn:post:0")].
Definition store_with_manifest : Store :=
  {| files := <[ Fs.manifest_path "news" := ManifestDoc stale_manifest ]>
                (files example_store);
     bucket := ∅ |}.

(** Two successive states of the feed: the entry [urn:post:1] first has
    the title [Old title], then [New title]. *)
Definition world_old : World :=
  example_world (reply_200 (Some "v2") None) [example_item "Old title" nov_1].
Definition world_new : World :=
  example_world (reply_200 (Some "v3") None) [example_item "New title" nov_1].

(** A feed whose entry is dated at the epoch. *)
Definition world_epoch : World :=
  example_world (reply_200 None None) [example_item "Post" epoch_date].

(** A title with a script element, and a link with a quote that ends the
    [href] attribute. *)
Definition script_title : string := "<script>alert(1)</script>".
Definition breaking_link : string :=
  "https://example.org/" +:+ dquote +:+ " onclick=" +:+ dquote +:+ "alert(1)".
Definition hostile_item : RawItem :=
  {| raw_guid := Some "urn:post:1";
     raw_link := Some breaking_link;
     raw_title := Some script_title;
     raw_pubDate := Some nov_1;
     raw_contentEncoded := None;
     raw_content := Some "<script>alert(2)</script>";
     raw_summary := None;
     raw_description := None |}.
Definition world_hostile : World :=
  example_world (reply_200 None None) [hostile_item].

(** * Further functions of the scripts *)

(** ** [normalizeUrl] of [scripts/ingest-rss.js] *)

(** The fields of a parsed URL. *)
Record URL := {
  protocol : string;
  hostname : string;
  pathname : string;
  search : string;
  hash : string;
}.

(** The built-in functions that [normalizeUrl] and the earlier
    [prettifyItem] call: the URL parser, which throws on a text that is no
    absolute URL, and the two string methods. *)
Record Builtins := {
  URL_parse : string -> completion URL;
  toLowerCase : string -> string;
  trim : string -> string;
}.

(** [s.slice (0, -1)]. *)
Definition slice_last (s : string) : string :=
  String.substring 0 (String.length s - 1) s.

Definition normalizeUrl (b : Builtins) (url : string) : string :=
  match URL_parse b url with
  | Normal u =>
      let host := toLowerCase b (hostname u) in
      let host := if JS.startsWith "www." host then JS.drop 4 host else host in
      let host := if String.eqb host "old.reddit.com" then "reddit.com" else host in
      let path := pathname u in
      let path := if JS.endsWith "/" path then slice_last path else path in
      host +:+ path +:+ search u
  | Throw _ => trim b (toLowerCase b url)
  end.

(** ** The earlier copy of the file-system script *)

(** It differs from [scripts/ingest-rss.js] in [prettifyItem], which parses
    the link of the item and can throw, and in the title separator. *)
Module Legacy.

Definition wrapTitle (title link : string) : string :=
  wrapTitle_with TITLE_SEP_R2 title link.

(** [hostname.replace (/^www\./, '')]. *)
Definition strip_www (host : string) : string :=
  if String.prefix "www." host then JS.drop 4 host else host.

Definition is_hacker_news (domain : string) : bool :=
  JS.includes "news.ycombinator.com" domain || JS.includes "hnrss.org" domain.

Definition prettifyItem (b : Builtins)
    (sanitizeHtml : string -> SanitizeOptions -> string)
    (item : Item) (sourceHash : string) : completion Item :=
  match URL_parse b (JS.or_str (link item) "https://localhost") with
  | Throw message => Throw message
  | Normal url =>
      let domain := strip_www (hostname url) in
      let title1 :=
        if is_hacker_news domain
        then Some (JS.replace " | Hacker News" EmptyString
                              (JS.or_str (title item) EmptyString))
        else title item in
      Normal
        {| guid := guid item;
           title := Some (wrapTitle (JS.or_str title1 "No Title")
                                    (JS.or_str (link item) "#"));
           link := link item;
           pubDate := pubDate item;
           description :=
             Some (cleanHtml sanitizeHtml
                     (Some (JS.or_str (description item) EmptyString)));
           timestamp := timestamp item;
           source := Some sourceHash;
           category := Some EmptyString |}
  end.

Fixpoint sync_items (w : World) (b : Builtins) (file sourceHash : string) (i : nat)
    (items : list RawItem) (manifest : list ManifestEntry)
  : M (list ManifestEntry) :=
  match items with
  | [] => ret manifest
  | item :: rest =>
      let guid := JS.or (raw_guid item) (raw_link item) in
      let* itemHash := getHash_of guid in
      let manifest := (manifest ++ [entry_of (default EmptyString guid) itemHash])%list in
      let itemPath := Fs.item_path sourceHash itemHash in
      let* present := existsSync itemPath in
      let* _ :=
        if negb present
        then
          let* processed :=
            lift (prettifyItem b (sanitizeHtml w) (new_item w file i item guid)
                               sourceHash) in
          writeFileSync w itemPath (ItemDoc processed)
        else ret tt in
      sync_items w b file sourceHash (S i) rest manifest
  end.

Definition cycle (w : World) (b : Builtins) (file sourceHash : string) (src : Source)
  : M unit :=
  let feedUrl := base64_decode w (u src) in
  let* result := fetchFeed w feedUrl (etag src) (lastModified src) in
  if modified result
  then
    let* items := lift (parseString w (default EmptyString (xml result))) in
    let* manifest := sync_items w b file sourceHash 0 items [] in
    let* _ := writeFileSync w (Fs.manifest_path sourceHash) (ManifestDoc manifest) in
    let src' := {| u := u src;
                   etag := Some (JS.or_str (res_etag result) EmptyString);
                   lastModified := Some (JS.or_str (res_lastModified result) EmptyString) |} in
    writeFileSync w (Fs.source_path file) (SourceDoc src')
  else ret tt.

(** The turn of a source whose item directory is in place. *)
Definition process_source (w : World) (b : Builtins) (file : string) : M unit :=
  let* src := readSource (Fs.source_path file) in
  let sourceHash := sourceHash_of file in
  try_catch (cycle w b file sourceHash src) (fun _ => ret tt).

Definition main (w : World) (b : Builtins) (listing : list string) : M unit :=
  let sourceFiles := filter (fun file => JS.endsWith ".json" file = true) listing in
  let* _ := for_each (process_source w b) sourceFiles in
  writeFileSync w (path_join ITEMS_ROOT ".nojekyll") (TextDoc EmptyString).

End Legacy.

(** ** What the further properties speak of *)

(** A cut of a text at a separator, read from the left.  Every segment
    but the last ends where the separator first occurs in what is left of
    the text: the separator starts neither inside the segment nor so late
    in it that it would run into the separator that follows (it does not
    occur in the segment followed by the separator without its last
    byte).  The last segment holds no separator.  There is at least one
    segment. *)
Fixpoint leftmost_cut (sep : string) (parts : list string) : Prop :=
  match parts with
  | [] => False
  | [last] => JS.includes sep last = false
  | part :: rest =>
      JS.includes sep (part +:+ slice_last sep) = false /\ leftmost_cut sep rest
  end.

(** The first of a list of optional texts that is present and not empty,
    and the empty text when there is none. *)
Fixpoint first_nonempty (candidates : list (option string)) : string :=
  match candidates with
  | [] => EmptyString
  | candidate :: rest =>
      if JS.truthy candidate then default EmptyString candidate
      else first_nonempty rest
  end.

(** The first item of a feed, from position [i] on, whose key is [key],
    with its position. *)
Fixpoint first_with_key (key : string) (i : nat) (items : list RawItem)
  : option (nat * RawItem) :=
  match items with
  | [] => None
  | item :: rest =>
      match identifier item with
      | Some id =>
          if String.eqb (getHash id) key then Some (i, item)
          else first_with_key key (S i) rest
      | None => first_with_key key (S i) rest
      end
  end.

(** The document that the file-system script writes for the item at
    position [i] of the feed of a source. *)
Definition Fs_document (w : World) (file sourceHash : string) (entry : nat * RawItem)
  : Doc :=
  ItemDoc (prettifyItem (sanitizeHtml w)
             (new_item w file (fst entry) (snd entry) (identifier (snd entry)))
             sourceHash).

(** The same for the object-storage script. *)
Definition R2_document (w : World) (file sourceHash : string) (entry : nat * RawItem)
  : Doc :=
  ItemDoc (R2.prettifyItem (sanitizeHtml w)
             (new_item w file (fst entry) (snd entry) (identifier (snd entry)))
             sourceHash).

(** ** Example built-ins *)

(** ASCII letters to lower case, which is what [toLowerCase] does on the
    texts of the examples. *)
Definition lower_ascii (ch : ascii) : ascii :=
  let n := N_of_ascii ch in
  if ((65 <=? n) && (n <=? 90))%N then ascii_of_N (n + 32) else ch.

Fixpoint lower (s : string) : string :=
  match s with
  | EmptyString => EmptyString
  | String ch rest => String (lower_ascii ch) (lower rest)
  end.

(** Spaces off both ends. *)
Fixpoint trim_start (s : string) : string :=
  match s with
  | String " " rest => trim_start rest
  | _ => s
  end.

Fixpoint reverse_onto (acc s : string) : string :=
  match s with
  | EmptyString => acc
  | String ch rest => reverse_onto (String ch acc) rest
  end.

Definition trim_spaces (s : string) : string :=
  reverse_onto EmptyString
    (trim_start (reverse_onto EmptyString (trim_start s))).

(** The text up to the first byte that [stop] accepts, and the rest. *)
Fixpoint span_until (stop : ascii -> bool) (s : string) : string * string :=
  match s with
  | EmptyString => (EmptyString, EmptyString)
  | String ch rest =>
      if stop ch then (EmptyString, s)
      else let (before, after) := span_until stop rest in (String ch before, after)
  end.

Definition one_of (chars : string) (ch : ascii) : bool :=
  existsb (Ascii.eqb ch) (list_ascii_of_string chars).

(** A parser for URLs of the shape [scheme://host/path?query#fragment]; any
    other text is no URL. *)
Definition parse_url (text : string) : completion URL :=
  match JS.split "://" text with
  | scheme :: part :: parts =>
      if String.eqb scheme EmptyString then Throw "Invalid URL"
      else
        let rest := JS.join "://" (part :: parts) in
        let (host, rest) := span_until (one_of "/?#") rest in
        let (path, rest) := span_until (one_of "?#") rest in
        let (query, fragment) := span_until (one_of "#") rest in
        if String.eqb host EmptyString then Throw "Invalid URL"
        else Normal {| protocol := scheme +:+ ":";
                       hostname := lower host;
                       pathname := if String.eqb path EmptyString then "/" else path;
                       search := query;
                       hash := fragment |}
  | _ => Throw "Invalid URL"
  end.

Definition example_builtins : Builtins :=
  {| URL_parse := parse_url; toLowerCase := lower; trim := trim_spaces |}.

(** ** Example feeds for the further properties *)

(** One identifier twice in a feed, with two titles. *)
Definition duplicate_items : list RawItem :=
  [example_item "Old title" nov_1; example_item "New title" nov_1].

(** An entry with neither guid nor link, after a regular one. *)
Definition nameless_item : RawItem :=
  {| raw_guid := None;
     raw_link := None;
     raw_title := Some "Untitled";
     raw_pubDate := None;
     raw_contentEncoded := None;
     raw_content := None;
     raw_summary := None;
     raw_description := Some "text" |}.
Definition nameless_feed : list RawItem :=
  [example_item "First" nov_1; nameless_item].

(** The example store with a stale manifest under the manifest key of the
    bucket. *)
Definition store_with_bucket_manifest : Store :=
  {| files := files example_store;
     bucket := <[ R2.manifest_key "news" := ManifestDoc stale_manifest ]> ∅ |}.

(** The world of the examples with every upload rejected. *)
Definition world_rejecting : World :=
  {| sanitizeHtml := sanitizeHtml world_old;
     parseString := parseString world_old;
     Date_parse := Date_parse world_old;
     Date_now := Date_now world_old;
     fetch := fetch world_old;
     base64_decode := base64_decode world_old;
     write_fails := fun _ => false;
     mkdir_fails := fun _ => false;
     put_fails := fun _ => true |}.

(** The world of the examples, in which no item directory can be made. *)
Definition world_without_directories : World :=
  {| sanitizeHtml := sanitizeHtml world_old;
     parseString := parseString world_old;
     Date_parse := Date_parse world_old;
     Date_now := Date_now world_old;
     fetch := fetch world_old;
     base64_decode := base64_decode world_old;
     write_fails := fun _ => false;
     mkdir_fails := fun _ => true;
     put_fails := fun _ => false |}.


(** A store with two readable sources and a file that is no source
    configuration. *)
Definition store_with_broken_source : Store :=
  {| files :=
       <[ Fs.source_path "broken.json" := TextDoc "{" ]>
         (<[ Fs.source_path "other.json" := SourceDoc example_source ]>
            (files example_store));
     bucket := ∅ |}.

(** Closed goals about the examples are settled by evaluation. *)
Ltac by_evaluation := vm_compute; reflexivity.

(** * Properties *)

(** ** The example world *)

Lemma example_dates :
  Date_parse_rfc1123 (Some epoch_date) = JS.Num 0
  /\ Date_parse_rfc1123 (Some nov_1) = JS.Num 1761955200000
  /\ Date_parse_rfc1123 (Some "Mon, 03 Nov 2025 00:00:00 GMT") = JS.Num nov_3_millis
  /\ Date_parse_rfc1123 (Some "yesterday") = JS.NaN
  /\ Date_parse_rfc1123 None = JS.NaN.
Proof. repeat split. Qed.

Lemma example_url :
  base64_to_text (u example_source) = "https://example.org/feed.xml".
Proof. reflexivity. Qed.

Lemma example_scan :
  scan_tags "<p onclick=x>text</p><script>" = ["p"; "p"; "script"]
  /\ scan_attributes "<p onclick=x>text</p><script>" = [("p", "onclick")].
Proof. split; reflexivity. Qed.

(** ** Strings *)

Lemma app_cons (a : ascii) (s t : string) : String a s +:+ t = String a (s +:+ t).
Proof. reflexivity. Qed.

Lemma app_empty_l (s : string) : EmptyString +:+ s = s.
Proof. reflexivity. Qed.

Lemma app_empty_r (s : string) : s +:+ EmptyString = s.
Proof. induction s as [|a s IH]; [reflexivity|]. rewrite app_cons, IH. reflexivity. Qed.

Lemma app_assoc_str (s t r : string) : (s +:+ t) +:+ r = s +:+ (t +:+ r).
Proof.
  induction s as [|a s IH]; [reflexivity|].
  rewrite !app_cons, IH. reflexivity.
Qed.

Lemma prefix_empty (s : string) : String.prefix EmptyString s = true.
Proof. destruct s; reflexivity. Qed.

Lemma prefix_cons (a b : ascii) (p s : string) :
  String.prefix (String a p) (String b s) = true <-> a = b /\ String.prefix p s = true.
Proof.
  simpl. destruct (ascii_dec a b) as [->|Hne]; split.
  - auto.
  - intros [_ H]. exact H.
  - discriminate.
  - intros [H _]. contradiction.
Qed.

Lemma prefix_app (p r : string) : String.prefix p (p +:+ r) = true.
Proof.
  induction p as [|a p IH]; [apply prefix_empty|].
  rewrite app_cons. apply prefix_cons. auto.
Qed.

Lemma prefix_app_mono (p s r : string) :
  String.prefix p s = true -> String.prefix p (s +:+ r) = true.
Proof.
  revert s. induction p as [|a p IH]; intros s H; [apply prefix_empty|].
  destruct s as [|b s]; [discriminate|].
  apply prefix_cons in H as [-> H]. rewrite app_cons. apply prefix_cons. auto.
Qed.

Lemma prefix_drop (p s : string) :
  String.prefix p s = true -> s = p +:+ JS.drop (String.length p) s.
Proof.
  revert s. induction p as [|a p IH]; intros s H; [reflexivity|].
  destruct s as [|b s]; [discriminate|].
  apply prefix_cons in H as [-> H]. rewrite app_cons. simpl. f_equal. auto.
Qed.

Lemma prefix_length (p s : string) :
  String.prefix p s = true -> (String.length p <= String.length s)%nat.
Proof.
  revert s. induction p as [|a p IH]; intros s H; simpl; [lia|].
  destruct s as [|b s]; [discriminate|].
  apply prefix_cons in H as [_ H]. apply IH in H. simpl. lia.
Qed.

Lemma includes_here (p s : string) : String.prefix p s = true -> JS.includes p s = true.
Proof. intros H. destruct s; simpl in *; rewrite H; reflexivity. Qed.

Lemma includes_cons (p : string) (a : ascii) (s : string) :
  JS.includes p s = true -> JS.includes p (String a s) = true.
Proof. intros H. cbn [JS.includes]. rewrite H. apply orb_true_r. Qed.

Lemma includes_app_l (p s r : string) :
  JS.includes p r = true -> JS.includes p (s +:+ r) = true.
Proof.
  intros H. induction s as [|a s IH]; [exact H|].
  rewrite app_cons. apply includes_cons, IH.
Qed.

Lemma includes_app_r (p s r : string) :
  JS.includes p s = true -> JS.includes p (s +:+ r) = true.
Proof.
  induction s as [|a s IH]; intros H.
  - destruct p; [apply includes_here, prefix_empty | discriminate].
  - cbn [JS.includes] in H. apply orb_true_iff in H as [H|H].
    + apply includes_here. apply (prefix_app_mono _ _ r) in H. exact H.
    + rewrite app_cons. apply includes_cons, IH, H.
Qed.

Lemma includes_mid (p s r : string) : JS.includes p (s +:+ p +:+ r) = true.
Proof. apply includes_app_l, includes_here, prefix_app. Qed.

(** ** [split] and [join] *)

Lemma split_from_nonempty (sep : string) (s : string) (k : nat) :
  JS.split_from sep k s <> [].
Proof.
  revert k. induction s as [|a s IH]; intros k; cbn [JS.split_from]; [discriminate|].
  destruct k as [|k]; [|apply IH].
  destruct (String.prefix sep (String a s)); [discriminate|].
  destruct (JS.split_from sep 0 s); discriminate.
Qed.

Lemma split_from_skip (sep : string) (s : string) (k : nat) :
  (k <= String.length s)%nat ->
  JS.split_from sep k s = JS.split_from sep 0 (JS.drop k s).
Proof.
  revert k. induction s as [|a s IH]; intros k Hk.
  - destruct k; [reflexivity | simpl in Hk; lia].
  - destruct k as [|k]; [reflexivity|].
    simpl in Hk. simpl. apply IH. lia.
Qed.

Lemma join_cons (sep a : string) (l : list string) :
  l <> [] -> JS.join sep (a :: l) = a +:+ sep +:+ JS.join sep l.
Proof. destruct l; [contradiction | reflexivity]. Qed.

Lemma join_cons_head (sep : string) (c : ascii) (seg : string) (segs : list string) :
  JS.join sep (String c seg :: segs) = String c (JS.join sep (seg :: segs)).
Proof. destruct segs; reflexivity. Qed.

Lemma join_split_from (sep : string) (s : string) (k : nat) :
  sep <> EmptyString -> (k <= String.length s)%nat ->
  JS.join sep (JS.split_from sep k s) = JS.drop k s.
Proof.
  intros Hsep. revert k. induction s as [|a s IH]; intros k Hk.
  - destruct k; reflexivity.
  - destruct k as [|k]; [|simpl in *; apply IH; lia].
    cbn [JS.split_from JS.drop].
    destruct (String.prefix sep (String a s)) eqn:Hp.
    + rewrite join_cons by apply split_from_nonempty.
      pose proof (prefix_length _ _ Hp) as Hlen. simpl in Hlen.
      destruct sep as [|b sep]; [contradiction|].
      rewrite IH by (simpl in *; lia).
      rewrite app_empty_l.
      etransitivity; [|symmetry; apply (prefix_drop _ _ Hp)].
      simpl. rewrite Nat.sub_0_r. reflexivity.
    + pose proof (IH 0%nat ltac:(lia)) as H0. cbn [JS.drop] in H0.
      pose proof (split_from_nonempty sep s 0) as Hne.
      destruct (JS.split_from sep 0 s) as [|seg segs]; [contradiction|].
      rewrite join_cons_head, H0. reflexivity.
Qed.

(** Joining the segments with the separator gives the string back. *)
Lemma join_split (sep s : string) :
  sep <> EmptyString -> JS.join sep (JS.split sep s) = s.
Proof. intros H. apply (join_split_from sep s 0 H). lia. Qed.

Lemma head_segment_prefix (sep s seg : string) (segs : list string) :
  sep <> EmptyString -> JS.split_from sep 0 s = seg :: segs ->
  exists rest, s = seg +:+ rest.
Proof.
  intros Hsep Hs. pose proof (join_split sep s Hsep) as Hj.
  unfold JS.split in Hj. rewrite Hs in Hj.
  destruct segs as [|seg' segs].
  - exists EmptyString. rewrite app_empty_r. symmetry. exact Hj.
  - exists (sep +:+ JS.join sep (seg' :: segs)). symmetry. exact Hj.
Qed.

(** No segment contains the separator. *)
Lemma split_from_segments_free (sep : string) (s : string) (k : nat) :
  sep <> EmptyString ->
  Forall (fun seg => JS.includes sep seg = false) (JS.split_from sep k s).
Proof.
  intros Hsep. revert k. induction s as [|a s IH]; intros k.
  - constructor; [|constructor]. destruct sep; [contradiction | reflexivity].
  - destruct k as [|k]; [|apply IH]. cbn [JS.split_from].
    destruct (String.prefix sep (String a s)) eqn:Hp.
    + constructor; [|apply IH]. destruct sep; [contradiction | reflexivity].
    + pose proof (IH 0%nat) as H0.
      pose proof (split_from_nonempty sep s 0) as Hne.
      destruct (JS.split_from sep 0 s) as [|seg segs] eqn:Hs; [contradiction|].
      inversion H0 as [|? ? Hseg Hsegs]; subst.
      constructor; [|exact Hsegs].
      cbn [JS.includes]. rewrite Hseg, orb_false_r.
      destruct (String.prefix sep (String a seg)) eqn:Hp'; [|reflexivity].
      destruct (head_segment_prefix sep s seg segs Hsep Hs) as [rest ->].
      apply (prefix_app_mono _ _ rest) in Hp'. rewrite app_cons in Hp'.
      congruence.
Qed.

Lemma split_segments_free (sep s : string) :
  sep <> EmptyString -> Forall (fun seg => JS.includes sep seg = false) (JS.split sep s).
Proof. intros H. apply split_from_segments_free, H. Qed.

(** A string that does not contain the separator is a single segment. *)
Lemma split_from_without_sep (sep s : string) :
  JS.includes sep s = false -> JS.split_from sep 0 s = [s].
Proof.
  induction s as [|a s IH]; intros H; [reflexivity|].
  cbn [JS.includes] in H. apply orb_false_iff in H as [Hp Hi].
  cbn [JS.split_from]. rewrite Hp, (IH Hi). reflexivity.
Qed.

(** ** Title formatter *)

Lemma fold_h2 (parts : list string) (html : string) :
  fold_left (fun html part => html +:+ h2 part) parts html
  = html +:+ String.concat EmptyString (map h2 parts).
Proof.
  revert html. induction parts as [|p parts IH]; intros html.
  - simpl. rewrite app_empty_r. reflexivity.
  - cbn [fold_left map]. rewrite IH, app_assoc_str. f_equal.
    destruct parts as [|q parts]; [apply app_empty_r|reflexivity].
Qed.

(** The shape of the output, for any separator: one [<h1>] with the
    anchor around the first segment, then one [<h2>] per further segment. *)
Lemma wrapTitle_with_shape (sep title link : string) :
  wrapTitle_with sep title link
  = h1 link (hd EmptyString (JS.split sep title))
    +:+ String.concat EmptyString (map h2 (tl (JS.split sep title))).
Proof.
  unfold wrapTitle_with. rewrite fold_h2. unfold h1.
  rewrite !app_assoc_str. reflexivity.
Qed.

Lemma TITLE_SEP_bytes :
  TITLE_SEP = String " " (String "226" (String "128" (String "148" (String " " EmptyString)))).
Proof. reflexivity. Qed.

(** [scripts/ingest-rss.js]: the title is cut at the occurrences of the em
    dash separator (the segments joined by it give the title back and none
    contains it), the first segment is the text of the anchor in the
    [<h1>], and every later segment is an [<h2>] of its own. *)
Lemma wrapTitle_splits_on_em_dash (title link : string) :
  exists first rest,
    JS.split TITLE_SEP title = first :: rest
    /\ JS.join TITLE_SEP (first :: rest) = title
    /\ Forall (fun seg => JS.includes TITLE_SEP seg = false) (first :: rest)
    /\ wrapTitle title link
       = h1 link first +:+ String.concat EmptyString (map h2 rest).
Proof.
  assert (Hsep : TITLE_SEP <> EmptyString) by discriminate.
  pose proof (join_split TITLE_SEP title Hsep) as Hj.
  pose proof (split_segments_free TITLE_SEP title Hsep) as Hf.
  unfold wrapTitle. rewrite wrapTitle_with_shape.
  pose proof (split_from_nonempty TITLE_SEP title 0) as Hne.
  unfold JS.split in *.
  destruct (JS.split_from TITLE_SEP 0 title) as [|first rest]; [contradiction|].
  exists first, rest. auto.
Qed.

(** [scripts/ingest-rss.js] on the example of the specification. *)
Lemma wrapTitle_ABC :
  wrapTitle title_ABC link_x
  = "<h1><a href=" +:+ dquote +:+ "http://x" +:+ dquote +:+ " target="
    +:+ dquote +:+ "_blank" +:+ dquote +:+ ">A</a></h1><h2>B</h2><h2>C</h2>".
Proof. by_evaluation. Qed.

(** C2, at the input on which the copies of the formatter differ: the
    object-storage script (and the earlier copy of the file-system script,
    which spells the separator the same way) does not cut the title
    [A — B — C] at its em dashes.  Its separator is another byte string,
    the title is a single segment, and the output is one [<h1>] whose
    anchor holds the whole title, with no [<h2>] at all; the formatter of
    [scripts/ingest-rss.js] gives the three headings on the same input. *)
Theorem R2_wrapTitle_keeps_em_dash_title_whole :
  TITLE_SEP_R2 <> TITLE_SEP
  /\ JS.split TITLE_SEP_R2 title_ABC = [title_ABC]
  /\ R2.wrapTitle title_ABC link_x = h1 link_x title_ABC
  /\ JS.includes "<h2>" (R2.wrapTitle title_ABC link_x) = false
  /\ R2.wrapTitle title_ABC link_x <> wrapTitle title_ABC link_x
  /\ JS.split TITLE_SEP title_ABC = ["A"; "B"; "C"].
Proof. repeat split; try discriminate; by_evaluation. Qed.

(** ** Content addressor *)

Lemma hex_digit_lower (n : Z) : is_lower_hex (Sha256.hex_digit n) = true.
Proof.
  unfold Sha256.hex_digit.
  assert (H : (Z.to_nat (Z.land n 15) < 16)%nat).
  { change 15 with (Z.ones 4). rewrite Z.land_ones by lia.
    pose proof (Z.mod_pos_bound n (2 ^ 4) ltac:(lia)). lia. }
  revert H. generalize (Z.to_nat (Z.land n 15)) as k. intros k H.
  do 16 (destruct k as [|k]; [reflexivity|]). lia.
Qed.

Lemma hex_word_lower (x : Z) (rest : string) :
  Forall (fun ch => is_lower_hex ch = true) (list_ascii_of_string rest) ->
  Forall (fun ch => is_lower_hex ch = true) (list_ascii_of_string (Sha256.hex_word x rest)).
Proof.
  intros H. unfold Sha256.hex_word. cbn [list_ascii_of_string].
  repeat (constructor; [apply hex_digit_lower|]). exact H.
Qed.

(** The hexadecimal digest has 64 characters, all lowercase hexadecimal. *)
Lemma hexdigest_length (text : string) : String.length (Sha256.hexdigest text) = 64%nat.
Proof. reflexivity. Qed.

Lemma hexdigest_lower (text : string) :
  Forall (fun ch => is_lower_hex ch = true) (list_ascii_of_string (Sha256.hexdigest text)).
Proof.
  unfold Sha256.hexdigest, Sha256.hex.
  repeat apply hex_word_lower. constructor.
Qed.

Lemma substring_prefix (n : nat) (s : string) :
  String.prefix (String.substring 0 n s) s = true.
Proof.
  revert s. induction n as [|n IH]; intros s.
  - destruct s; reflexivity.
  - destruct s as [|a s]; [reflexivity|].
    cbn [String.substring]. apply prefix_cons. auto.
Qed.

Lemma substring_lower (n : nat) (s : string) :
  Forall (fun ch => is_lower_hex ch = true) (list_ascii_of_string s) ->
  Forall (fun ch => is_lower_hex ch = true) (list_ascii_of_string (String.substring 0 n s)).
Proof.
  revert s. induction n as [|n IH]; intros s H.
  - destruct s; constructor.
  - destruct s as [|a s]; [constructor|].
    cbn [String.substring list_ascii_of_string] in *.
    inversion H; subst. constructor; auto.
Qed.

(** The digest of the standard test message. *)
Lemma hexdigest_abc :
  Sha256.hexdigest "abc"
  = "ba7816bf8f01cfea414140de5dae2223b00361a396177a9cb410ff61f20015ad".
Proof. by_evaluation. Qed.

(** C5: [getHash] is a function of the identifier alone (equal identifiers
    give equal keys, there being no state, clock or randomness among its
    arguments), and its result is always exactly twelve lowercase
    hexadecimal characters, the beginning of the SHA-256 digest of the
    identifier. *)
Theorem getHash_deterministic_12_hex (I J : string) :
  I = J ->
  getHash I = getHash J
  /\ String.length (getHash I) = 12%nat
  /\ Forall (fun ch => is_lower_hex ch = true) (list_ascii_of_string (getHash I))
  /\ String.prefix (getHash I) (Sha256.hexdigest I) = true.
Proof.
  intros ->. split; [reflexivity|]. split; [reflexivity|]. split.
  - apply substring_lower, hexdigest_lower.
  - apply substring_prefix.
Qed.

Lemma getHash_deterministic_12_hex_witness :
  getHash "abc" = getHash "abc"
  /\ String.length (getHash "abc") = 12%nat
  /\ Forall (fun ch => is_lower_hex ch = true) (list_ascii_of_string (getHash "abc"))
  /\ String.prefix (getHash "abc") (Sha256.hexdigest "abc") = true.
Proof. apply (getHash_deterministic_12_hex "abc" "abc"). reflexivity. Defined.

Lemma getHash_abc : getHash "abc" = "ba7816bf8f01".
Proof. by_evaluation. Qed.

(** ** Conditional fetcher *)

(** The result of [fetchFeed], by cases on what the network does. *)
Lemma fetchFeed_cases (w : World) (url : string)
    (etag lastModified : option string) (st : Store) :
  exists r,
    fetchFeed w url etag lastModified st = (Normal r, st)
    /\ match fetch w url (request_headers etag lastModified) with
       | Throw message => r = failed message
       | Normal response =>
           if status response =? 304 then r = no_change
           else if negb (ok response)
           then r = failed ("HTTP " +:+ pretty (status response))
           else match text response with
                | Throw message => r = failed message
                | Normal body =>
                    r = {| modified := true; xml := Some body;
                           res_etag := header_etag response;
                           res_lastModified := header_last_modified response;
                           error := None |}
                end
       end.
Proof.
  unfold fetchFeed, try_catch, bind, lift, ret, throw.
  destruct (fetch w url (request_headers etag lastModified)) as [response|message].
  - destruct (status response =? 304); [eauto|].
    destruct (negb (ok response)); [eauto|].
    destruct (text response) as [body|message]; eauto.
  - eauto.
Qed.

(** The two results without a body carry no body, and only the failed one
    an error. *)
Lemma no_body_results (message : string) :
  modified no_change = false /\ xml no_change = None /\ error no_change = None
  /\ modified (failed message) = false /\ xml (failed message) = None
  /\ error (failed message) = Some message.
Proof. repeat split. Qed.

(** C6: [fetchFeed] always completes normally, whatever the network does,
    and leaves the store as it is.  A rejected [fetch] (network error or
    timeout) gives the failed result with the message of the error; a 304
    reply gives the no-change result, which carries no body and no error; a
    reply with another status outside 200..299 gives the failed result
    [HTTP status]; a body that cannot be read gives the failed result; only
    a successful reply whose body was read gives a modified result. *)
Theorem fetchFeed_never_throws (w : World) (url : string)
    (etag lastModified : option string) (st : Store) :
  exists r,
    fetchFeed w url etag lastModified st = (Normal r, st)
    /\ match fetch w url (request_headers etag lastModified) with
       | Throw message => r = failed message
       | Normal response =>
           if status response =? 304 then r = no_change
           else if negb (ok response)
           then r = failed ("HTTP " +:+ pretty (status response))
           else match text response with
                | Throw message => r = failed message
                | Normal body =>
                    r = {| modified := true; xml := Some body;
                           res_etag := header_etag response;
                           res_lastModified := header_last_modified response;
                           error := None |}
                end
       end.
Proof. apply fetchFeed_cases. Qed.

Lemma fetchFeed_total (w : World) (url : string) (etag lastModified : option string)
    (st : Store) :
  exists r, fetchFeed w url etag lastModified st = (Normal r, st).
Proof.
  destruct (fetchFeed_cases w url etag lastModified st) as (r & H & _). eauto.
Qed.

(** The result does not depend on the store. *)
Lemma fetchFeed_store_independent (w : World) (url : string)
    (etag lastModified : option string) (st st' : Store) :
  fst (fetchFeed w url etag lastModified st) = fst (fetchFeed w url etag lastModified st').
Proof.
  unfold fetchFeed, try_catch, bind, lift, ret, throw.
  destruct (fetch w url (request_headers etag lastModified)) as [response|message];
    [|reflexivity].
  destruct (status response =? 304); [reflexivity|].
  destruct (negb (ok response)); [reflexivity|].
  destruct (text response); reflexivity.
Qed.

(** A modified result comes from a successful reply, and carries its two
    caching headers. *)
Lemma fetchFeed_modified (w : World) (url : string) (etag lastModified : option string)
    (st st' : Store) (r : FetchResult) :
  fetchFeed w url etag lastModified st = (Normal r, st') -> modified r = true ->
  exists response body,
    fetch w url (request_headers etag lastModified) = Normal response
    /\ ok response = true /\ status response <> 304
    /\ text response = Normal body
    /\ xml r = Some body
    /\ res_etag r = header_etag response
    /\ res_lastModified r = header_last_modified response.
Proof.
  unfold fetchFeed, try_catch, bind, lift, ret, throw.
  destruct (fetch w url (request_headers etag lastModified)) as [response|message].
  - destruct (status response =? 304) eqn:H304; [intros [= <- _]; discriminate|].
    destruct (negb (ok response)) eqn:Hok; [intros [= <- _]; discriminate|].
    destruct (text response) as [body|message] eqn:Hbody; [|intros [= <- _]; discriminate].
    intros [= <- _] _. exists response, body.
    apply negb_false_iff in Hok. apply Z.eqb_neq in H304. auto 10.
  - intros [= <- _]. discriminate.
Qed.

(** ** More on strings *)

Lemma length_app_str (s t : string) :
  String.length (s +:+ t) = (String.length s + String.length t)%nat.
Proof.
  induction s as [|a s IH]; [reflexivity|].
  rewrite app_cons. cbn [String.length]. rewrite IH. reflexivity.
Qed.

Lemma app_inj_length (s1 s2 t1 t2 : string) :
  String.length s1 = String.length s2 ->
  s1 +:+ t1 = s2 +:+ t2 -> s1 = s2 /\ t1 = t2.
Proof.
  revert s2. induction s1 as [|a s1 IH]; intros [|b s2] Hlen H; try discriminate.
  - auto.
  - rewrite !app_cons in H. injection H as -> H. injection Hlen as Hlen.
    destruct (IH s2 Hlen H) as [-> ->]. auto.
Qed.

Lemma app_inv_tail_str (s1 s2 t : string) : s1 +:+ t = s2 +:+ t -> s1 = s2.
Proof.
  intros H. apply (app_inj_length s1 s2 t t); [|exact H].
  apply (f_equal String.length) in H. rewrite !length_app_str in H. lia.
Qed.

Lemma drop_app_length (s t : string) : JS.drop (String.length s) (s +:+ t) = t.
Proof. induction s as [|a s IH]; [reflexivity|]. rewrite app_cons. exact IH. Qed.

Lemma substring_app_length (s t : string) :
  String.substring 0 (String.length s) (s +:+ t) = s.
Proof.
  induction s as [|a s IH]; [destruct t; reflexivity|].
  rewrite app_cons. cbn [String.length String.substring]. rewrite IH. reflexivity.
Qed.

Lemma endsWith_app (s p : string) : JS.endsWith p (s +:+ p) = true.
Proof.
  unfold JS.endsWith. rewrite length_app_str.
  replace (String.length s + String.length p - String.length p)%nat
    with (String.length s) by lia.
  rewrite drop_app_length, String.eqb_refl, andb_true_r.
  apply Nat.leb_le. lia.
Qed.

Lemma slice_last_app (s : string) (ch : ascii) :
  slice_last (s +:+ String ch EmptyString) = s.
Proof.
  unfold slice_last. rewrite length_app_str. cbn [String.length].
  replace (String.length s + 1 - 1)%nat with (String.length s) by lia.
  apply substring_app_length.
Qed.

(** ** Effects on the store *)

Lemma writeFileSync_ok (w : World) (path : string) (doc : Doc) (st : Store) :
  write_fails w path = false ->
  writeFileSync w path doc st
  = (Normal tt, {| files := <[path := doc]> (files st); bucket := bucket st |}).
Proof. intros H. unfold writeFileSync. rewrite H. reflexivity. Qed.

Lemma writeFileSync_throws (w : World) (path : string) (doc : Doc) (st : Store) :
  write_fails w path = true ->
  exists message, writeFileSync w path doc st = (Throw message, st).
Proof. intros H. unfold writeFileSync. rewrite H. eauto. Qed.

(** ** Paths *)

Lemma json_name_plain (k : string) :
  String.eqb (k +:+ ".json") "" || String.eqb (k +:+ ".json") "." = false
  /\ String.eqb (k +:+ ".json") ".." = false.
Proof.
  assert (Hlen : forall s, k +:+ ".json" = s -> (5 <= String.length s)%nat).
  { intros s <-. rewrite length_app_str. cbn [String.length]. lia. }
  split; [apply orb_false_iff; split|]; apply String.eqb_neq; intros H;
    apply Hlen in H; cbn [String.length] in H; lia.
Qed.

Lemma path_join_json (dir k : string) :
  path_join dir (k +:+ ".json")
  = if String.eqb dir "." then k +:+ ".json" else dir +:+ "/" +:+ k +:+ ".json".
Proof.
  unfold path_join. destruct (json_name_plain k) as [-> ->]. reflexivity.
Qed.

(** The path of an item is the prefix of its source, the key and the
    extension. *)
Lemma item_path_shape (sourceHash key : string) :
  Fs.item_path sourceHash key = item_prefix sourceHash +:+ key +:+ ".json".
Proof.
  unfold Fs.item_path, Fs.item_dir. rewrite path_join_json.
  unfold path_join, item_prefix, ITEMS_ROOT.
  destruct (String.eqb sourceHash "" || String.eqb sourceHash "."); [reflexivity|].
  destruct (String.eqb sourceHash ".."); [reflexivity|].
  cbn [String.eqb Ascii.eqb Bool.eqb andb append].
  rewrite !app_assoc_str. reflexivity.
Qed.

Lemma item_path_plain (sourceHash key : string) :
  sourceHash <> "" -> sourceHash <> "." -> sourceHash <> ".." ->
  Fs.item_path sourceHash key = "items/" +:+ sourceHash +:+ "/" +:+ key +:+ ".json".
Proof.
  intros H1 H2 H3. rewrite item_path_shape. unfold item_prefix.
  apply String.eqb_neq in H1, H2, H3. rewrite H1, H2, H3. cbn [orb].
  rewrite !app_assoc_str. reflexivity.
Qed.

Lemma item_path_inj_key (sourceHash k1 k2 : string) :
  Fs.item_path sourceHash k1 = Fs.item_path sourceHash k2 -> k1 = k2.
Proof.
  rewrite !item_path_shape. intros H.
  apply app_inj_length in H as [_ H]; [|reflexivity].
  apply app_inv_tail_str in H. exact H.
Qed.

(** The first characters of a key. *)
Lemma getHash_chars (text : string) :
  exists c1 c2 c3 c4 c5 rest,
    getHash text = String c1 (String c2 (String c3 (String c4 (String c5 rest))))
    /\ is_lower_hex c3 = true /\ is_lower_hex c5 = true.
Proof.
  unfold getHash, Sha256.hexdigest, Sha256.hex. unfold Sha256.hex_word at 1.
  cbn [String.substring].
  eexists _, _, _, _, _, _. split; [reflexivity|]. split; apply hex_digit_lower.
Qed.

(** An item file is never under [feeds] or [data], where manifests and
    source configurations are, whatever the name of the source. *)
Lemma hash_path_not_feeds (sourceHash text : string) :
  String.prefix "feeds/" (Fs.item_path sourceHash (getHash text)) = false.
Proof.
  rewrite item_path_shape. unfold item_prefix.
  destruct (String.eqb sourceHash "" || String.eqb sourceHash "."); [reflexivity|].
  destruct (String.eqb sourceHash ".."); [|reflexivity].
  destruct (getHash_chars text) as (c1 & c2 & c3 & c4 & c5 & rest & -> & _ & H5).
  cbn [append].
  destruct (String.prefix _ _) eqn:H; [|reflexivity]. exfalso.
  apply prefix_cons in H as [_ H]. apply prefix_cons in H as [_ H].
  apply prefix_cons in H as [_ H]. apply prefix_cons in H as [_ H].
  apply prefix_cons in H as [<- _]. discriminate.
Qed.

Lemma hash_path_not_data (sourceHash text : string) :
  String.prefix "data" (Fs.item_path sourceHash (getHash text)) = false.
Proof.
  rewrite item_path_shape. unfold item_prefix.
  destruct (String.eqb sourceHash "" || String.eqb sourceHash "."); [reflexivity|].
  destruct (String.eqb sourceHash ".."); [|reflexivity].
  destruct (getHash_chars text) as (c1 & c2 & c3 & c4 & c5 & rest & -> & H3 & _).
  cbn [append].
  destruct (String.prefix _ _) eqn:H; [|reflexivity]. exfalso.
  apply prefix_cons in H as [_ H]. apply prefix_cons in H as [_ H].
  apply prefix_cons in H as [<- _]. discriminate.
Qed.

Lemma manifest_path_shape (sourceHash : string) :
  Fs.manifest_path sourceHash = "feeds/" +:+ sourceHash +:+ ".json".
Proof. unfold Fs.manifest_path. rewrite path_join_json. reflexivity. Qed.

Lemma manifest_path_prefix (sourceHash : string) :
  String.prefix "feeds/" (Fs.manifest_path sourceHash) = true.
Proof. rewrite manifest_path_shape. apply prefix_app. Qed.

Lemma source_path_cases (file : string) :
  Fs.source_path file = "data/sources" \/ Fs.source_path file = "data"
  \/ (file <> "" /\ Fs.source_path file = "data/sources/" +:+ file).
Proof.
  unfold Fs.source_path, path_join, SOURCES_DIR.
  destruct (String.eqb file "") eqn:H0; [auto|].
  destruct (String.eqb file "."); [auto|]. cbn [orb].
  destruct (String.eqb file ".."); [right; left; reflexivity|].
  right; right. split; [apply String.eqb_neq, H0|reflexivity].
Qed.

Lemma source_path_prefix (file : string) :
  String.prefix "data" (Fs.source_path file) = true.
Proof.
  destruct (source_path_cases file) as [->|[->|[_ ->]]]; reflexivity.
Qed.

Lemma manifest_path_not_item (sourceHash : string) :
  String.prefix "items/" (Fs.manifest_path sourceHash) = false.
Proof. rewrite manifest_path_shape. reflexivity. Qed.

Lemma source_path_not_item (file : string) :
  String.prefix "items/" (Fs.source_path file) = false.
Proof. destruct (source_path_cases file) as [->|[->|[_ ->]]]; reflexivity. Qed.

Lemma source_path_not_manifest (file sourceHash : string) :
  Fs.manifest_path sourceHash <> Fs.source_path file.
Proof.
  intros H. pose proof (source_path_prefix file) as Hp.
  rewrite <- H, manifest_path_shape in Hp. discriminate.
Qed.

Lemma hash_path_not_manifest (sourceHash sourceHash' text : string) :
  Fs.manifest_path sourceHash' <> Fs.item_path sourceHash (getHash text).
Proof.
  intros H. pose proof (hash_path_not_feeds sourceHash text) as Hp.
  rewrite <- H, manifest_path_prefix in Hp. discriminate.
Qed.

Lemma hash_path_not_source (sourceHash file text : string) :
  Fs.source_path file <> Fs.item_path sourceHash (getHash text).
Proof.
  intros H. pose proof (hash_path_not_data sourceHash text) as Hp.
  rewrite <- H, source_path_prefix in Hp. discriminate.
Qed.

Lemma marker_path : path_join ITEMS_ROOT ".nojekyll" = "items/.nojekyll".
Proof. reflexivity. Qed.

(** Source files of the names that [main] selects have paths of their
    own. *)
Lemma json_file_plain (file : string) :
  JS.endsWith ".json" file = true ->
  Fs.source_path file = "data/sources/" +:+ file.
Proof.
  intros H. unfold Fs.source_path, path_join, SOURCES_DIR.
  destruct (String.eqb file "") eqn:H0;
    [apply String.eqb_eq in H0; subst; discriminate|].
  destruct (String.eqb file ".") eqn:H1;
    [apply String.eqb_eq in H1; subst; discriminate|].
  destruct (String.eqb file "..") eqn:H2;
    [apply String.eqb_eq in H2; subst; discriminate|].
  reflexivity.
Qed.

Lemma source_path_inj (file file' : string) :
  JS.endsWith ".json" file = true ->
  Fs.source_path file = Fs.source_path file' -> file = file'.
Proof.
  intros Hjson. rewrite (json_file_plain _ Hjson).
  assert (Hlen : (0 < String.length file)%nat).
  { destruct file; [discriminate|cbn; lia]. }
  destruct (source_path_cases file') as [->|[->|[_ ->]]]; intros H.
  - apply (f_equal String.length) in H. rewrite length_app_str in H.
    cbn [String.length] in H. lia.
  - apply (f_equal String.length) in H. rewrite length_app_str in H.
    cbn [String.length] in H. lia.
  - apply app_inj_length in H as [_ H]; auto.
Qed.

(** The item loop of the file-system script: it touches only the paths of
    the items of its source, it never changes a file that exists, and when it completes it
    returns the entries of the items, in feed order, after those it was
    given; every item then had an identifier. *)
Lemma Fs_sync_items_spec (w : World) (file sourceHash : string) (items : list RawItem) :
  forall (i : nat) (manifest : list ManifestEntry) (st st1 : Store)
         (c : completion (list ManifestEntry)),
    Fs.sync_items w file sourceHash i items manifest st = (c, st1) ->
    bucket st1 = bucket st
    /\ (forall p, (forall id, p <> Fs.item_path sourceHash (getHash id)) ->
                  files st1 !! p = files st !! p)
    /\ (forall p d, files st !! p = Some d -> files st1 !! p = Some d)
    /\ (forall m, c = Normal m ->
         m = (manifest ++ map manifest_entry items)%list
         /\ Forall (fun item => is_Some (identifier item)) items).
Proof.
  induction items as [|item rest IH]; intros i manifest st st1 c.
  - intros [= <- <-]. split; [|split; [|split]]; auto.
    intros m [= <-]. rewrite app_nil_r. auto.
  - cbn [Fs.sync_items]. unfold bind at 1.
    fold (identifier item).
    destruct (identifier item) as [guid|] eqn:Hid; cbn [getHash_of ret throw];
      [|intros [= <- <-]; split; [|split; [|split]]; auto; discriminate].
    unfold bind at 1, existsSync.
    set (path := Fs.item_path sourceHash (getHash guid)).
    set (doc := ItemDoc _).
    assert (Hstep : forall st', (forall p, (forall id, p <> Fs.item_path sourceHash (getHash id)) ->
                                       files st' !! p = files st !! p) ->
                          (forall p d, files st !! p = Some d -> files st' !! p = Some d) ->
                          bucket st' = bucket st ->
              Fs.sync_items w file sourceHash (S i) rest
                (manifest ++ [entry_of (default EmptyString (Some guid)) (getHash guid)])%list st'
              = (c, st1) ->
              bucket st1 = bucket st
              /\ (forall p, (forall id, p <> Fs.item_path sourceHash (getHash id)) ->
                            files st1 !! p = files st !! p)
              /\ (forall p d, files st !! p = Some d -> files st1 !! p = Some d)
              /\ (forall m, c = Normal m ->
                   m = (manifest ++ map manifest_entry (item :: rest))%list
                   /\ Forall (fun item => is_Some (identifier item)) (item :: rest))).
    { intros st' Hframe Hkept Hbucket Hrest.
      destruct (IH _ _ _ _ _ Hrest) as (Hb & Hf & Hk & Hm).
      split; [congruence|]. split; [|split].
      - intros p Hp. rewrite (Hf p Hp). auto.
      - intros p d Hd. auto.
      - intros m Hc. destruct (Hm m Hc) as [-> Hall]. split.
        + rewrite <- app_assoc. cbn [map app]. unfold manifest_entry.
          rewrite Hid. reflexivity.
        + constructor; [rewrite Hid; eauto | exact Hall]. }
    case_bool_decide as Hex; cbn [negb].
    + unfold bind at 1, ret. apply Hstep; auto.
    + unfold bind at 1, writeFileSync.
      destruct (write_fails w path) eqn:Hw.
      * intros [= <- <-]. split; [|split; [|split]]; auto. discriminate.
      * apply Hstep; cbn [files bucket]; auto.
        -- intros p Hp. rewrite lookup_insert_ne; [reflexivity|].
           intros Heq. apply (Hp guid). rewrite <- Heq. reflexivity.
        -- intros p d Hd. rewrite lookup_insert_ne; [exact Hd|].
           intros Heq. apply Hex. rewrite Heq, Hd. eauto.
Qed.

(** What one cycle of the file-system script does to the store. *)
Lemma Fs_cycle_spec (w : World) (file sourceHash : string) (src : Source)
    (st st' : Store) (c : completion unit) :
  Fs.cycle w file sourceHash src st = (c, st') ->
  exists r,
    fetchFeed w (base64_decode w (u src)) (etag src) (lastModified src) st = (Normal r, st)
    /\ bucket st' = bucket st
    /\ (forall p d, String.prefix "items/" p = true ->
                    files st !! p = Some d -> files st' !! p = Some d)
    /\ (forall p, (forall id, p <> Fs.item_path sourceHash (getHash id)) ->
                  p <> Fs.manifest_path sourceHash ->
                  p <> Fs.source_path file -> files st' !! p = files st !! p)
    /\ (modified r = false -> c = Normal tt /\ st' = st)
    /\ (modified r = true ->
        match c with
        | Throw _ => files st' !! Fs.source_path file = files st !! Fs.source_path file
        | Normal _ =>
            exists items,
              parseString w (default EmptyString (xml r)) = Normal items
              /\ Forall (fun item => is_Some (identifier item)) items
              /\ files st' !! Fs.manifest_path sourceHash
                 = Some (ManifestDoc (map manifest_entry items))
              /\ files st' !! Fs.source_path file
                 = Some (SourceDoc
                           {| u := u src;
                              etag := Some (JS.or_str (res_etag r) EmptyString);
                              lastModified :=
                                Some (JS.or_str (res_lastModified r) EmptyString) |})
        end).
Proof.
  unfold Fs.cycle. unfold bind at 1.
  destruct (fetchFeed_total w (base64_decode w (u src)) (etag src) (lastModified src) st)
    as [r Hr].
  rewrite Hr. intros H. exists r. split; [reflexivity|].
  destruct (modified r) eqn:Hm.
  2:{ injection H as <- <-. repeat split; auto; discriminate. }
  revert H. unfold bind at 1, lift.
  destruct (parseString w (default EmptyString (xml r))) as [items|message] eqn:Hparse.
  2:{ intros [= <- <-]. repeat split; auto; discriminate. }
  unfold bind at 1.
  destruct (Fs.sync_items w file sourceHash 0 items [] st) as [[manifest|message] st1] eqn:Hsync;
    destruct (Fs_sync_items_spec _ _ _ _ _ _ _ _ _ Hsync) as (Hb & Hframe & Hkept & Hman).
  2:{ intros [= <- <-]. split; [exact Hb|]. split; [eauto|]. split; [eauto|].
      split; [discriminate|]. intros _. apply Hframe. intros id. apply hash_path_not_source. }
  destruct (Hman manifest eq_refl) as [-> Hids]. cbn [app].
  unfold bind at 1, writeFileSync at 1.
  destruct (write_fails w (Fs.manifest_path sourceHash)) eqn:Hw1.
  { intros [= <- <-]. split; [exact Hb|]. split; [eauto|]. split; [eauto|].
    split; [discriminate|]. intros _. apply Hframe. intros id. apply hash_path_not_source. }
  unfold writeFileSync. cbn [files bucket].
  destruct (write_fails w (Fs.source_path file)) eqn:Hw2.
  - intros [= <- <-]. cbn [files bucket].
    split; [exact Hb|]. split; [|split; [|split; [discriminate|]]].
    + intros p d Hp Hd. rewrite lookup_insert_ne; [eauto|].
      intros <-. rewrite manifest_path_not_item in Hp. discriminate.
    + intros p Hp Hp1 Hp2. rewrite lookup_insert_ne by auto. auto.
    + intros _. rewrite lookup_insert_ne by apply source_path_not_manifest.
      apply Hframe. intros id. apply hash_path_not_source.
  - intros [= <- <-]. cbn [files bucket].
    split; [exact Hb|]. split; [|split; [|split; [discriminate|]]].
    + intros p d Hp Hd. rewrite !lookup_insert_ne; [eauto| |].
      * intros <-. rewrite manifest_path_not_item in Hp. discriminate.
      * intros <-. rewrite source_path_not_item in Hp. discriminate.
    + intros p Hp Hp1 Hp2. rewrite !lookup_insert_ne by auto. auto.
    + intros _. exists items. split; [reflexivity|]. split; [exact Hids|]. split.
      * rewrite lookup_insert_ne by (apply not_eq_sym, source_path_not_manifest).
        apply lookup_insert_eq.
      * apply lookup_insert_eq.
Qed.

(** The item loop of the object-storage script: the local files stay as
    they are, and the manifest returned is the same as in the file-system
    script. *)
Lemma R2_sync_items_spec (w : World) (file sourceHash : string) (items : list RawItem) :
  forall (i : nat) (manifest : list ManifestEntry) (st st1 : Store)
         (c : completion (list ManifestEntry)),
    R2.sync_items w file sourceHash i items manifest st = (c, st1) ->
    files st1 = files st
    /\ (forall m, c = Normal m ->
         m = (manifest ++ map manifest_entry items)%list
         /\ Forall (fun item => is_Some (identifier item)) items).
Proof.
  induction items as [|item rest IH]; intros i manifest st st1 c.
  - intros [= <- <-]. split; [reflexivity|].
    intros m [= <-]. rewrite app_nil_r. auto.
  - cbn [R2.sync_items]. unfold bind at 1. fold (identifier item).
    destruct (identifier item) as [guid|] eqn:Hid; cbn [getHash_of ret throw];
      [|intros [= <- <-]; split; [reflexivity | discriminate]].
    unfold bind at 1, uploadToR2, try_catch, ret.
    match goal with
    | |- context [put_fails w ?k] => destruct (put_fails w k)
    end; intros Hrest; destruct (IH _ _ _ _ _ Hrest) as (Hf & Hm);
      (split; [exact Hf|]); intros m Hc; destruct (Hm m Hc) as [-> Hall];
      (split; [|constructor; [rewrite Hid; eauto | exact Hall]]);
      rewrite <- app_assoc; cbn [map app]; unfold manifest_entry; rewrite Hid;
      reflexivity.
Qed.

(** What one cycle of the object-storage script does to the local files:
    nothing, unless it completes after a modified fetch, and then it
    rewrites the source configuration only. *)
Lemma R2_cycle_spec (w : World) (file sourceHash : string) (src : Source)
    (st st' : Store) (c : completion unit) :
  R2.cycle w file sourceHash src st = (c, st') ->
  exists r,
    fetchFeed w (base64_decode w (u src)) (etag src) (lastModified src) st = (Normal r, st)
    /\ (forall p, p <> Fs.source_path file -> files st' !! p = files st !! p)
    /\ (modified r = false -> c = Normal tt /\ st' = st)
    /\ (modified r = true ->
        match c with
        | Throw _ => files st' = files st
        | Normal _ =>
            files st' !! Fs.source_path file
            = Some (SourceDoc
                      {| u := u src;
                         etag := Some (JS.or_str (res_etag r) EmptyString);
                         lastModified :=
                           Some (JS.or_str (res_lastModified r) EmptyString) |})
        end).
Proof.
  unfold R2.cycle. unfold bind at 1.
  destruct (fetchFeed_total w (base64_decode w (u src)) (etag src) (lastModified src) st)
    as [r Hr].
  rewrite Hr. intros H. exists r. split; [reflexivity|].
  destruct (modified r) eqn:Hm.
  2:{ injection H as <- <-. repeat split; auto; discriminate. }
  revert H. unfold bind at 1, lift.
  destruct (parseString w (default EmptyString (xml r))) as [items|message] eqn:Hparse.
  2:{ intros [= <- <-]. repeat split; auto; discriminate. }
  unfold bind at 1.
  destruct (R2.sync_items w file sourceHash 0 items [] st) as [[manifest|message] st1] eqn:Hsync;
    destruct (R2_sync_items_spec _ _ _ _ _ _ _ _ _ Hsync) as (Hfiles & _).
  2:{ intros [= <- <-]. rewrite Hfiles. repeat split; auto; discriminate. }
  unfold bind at 1, uploadToR2, try_catch, ret.
  destruct (put_fails w (R2.manifest_key sourceHash));
    unfold writeFileSync; cbn [files bucket];
    destruct (write_fails w (Fs.source_path file));
    intros [= <- <-]; cbn [files bucket]; rewrite ?Hfiles;
    (split; [intros p Hp; rewrite ?lookup_insert_ne by auto; reflexivity|]);
    (split; [discriminate|]); intros _; try reflexivity; apply lookup_insert_eq.
Qed.

(** ** One source, and a whole run *)

(** The turn of a source in the file-system script: it throws, with the
    store as it was, when the source cannot be read or its item directory
    cannot be made; otherwise it completes, with the store that the cycle
    leaves. *)
Lemma Fs_process_source_spec (w : World) (file : string) (st : Store) :
  match files st !! Fs.source_path file with
  | Some (SourceDoc src) =>
      if mkdir_fails w (Fs.item_dir (sourceHash_of file))
      then exists message, Fs.process_source w file st = (Throw message, st)
      else
        exists c st',
          Fs.cycle w file (sourceHash_of file) src st = (c, st')
          /\ Fs.process_source w file st = (Normal tt, st')
  | _ => exists message, Fs.process_source w file st = (Throw message, st)
  end.
Proof.
  unfold Fs.process_source, bind, readSource, ensure_dir, try_catch, ret.
  destruct (files st !! Fs.source_path file) as [[| |src|]|]; eauto.
  destruct (mkdir_fails w (Fs.item_dir (sourceHash_of file))); eauto.
  destruct (Fs.cycle w file (sourceHash_of file) src st) as [[[]|message] st'] eqn:Hc; eauto.
Qed.

(** Either way the turn changes the store as the cycle does, or not at
    all. *)
Lemma Fs_process_source_cases (w : World) (file : string) (st : Store) :
  snd (Fs.process_source w file st) = st
  \/ exists src c,
       files st !! Fs.source_path file = Some (SourceDoc src)
       /\ mkdir_fails w (Fs.item_dir (sourceHash_of file)) = false
       /\ Fs.cycle w file (sourceHash_of file) src st
          = (c, snd (Fs.process_source w file st))
       /\ fst (Fs.process_source w file st) = Normal tt.
Proof.
  pose proof (Fs_process_source_spec w file st) as H.
  destruct (files st !! Fs.source_path file) as [[| |src|]|];
    try (destruct H as [message ->]; left; reflexivity).
  destruct (mkdir_fails w (Fs.item_dir (sourceHash_of file)));
    [destruct H as [message ->]; left; reflexivity|].
  destruct H as (c & st' & Hc & ->). right. exists src, c. auto.
Qed.

Lemma R2_process_source_spec (w : World) (file : string) (st : Store) :
  match files st !! Fs.source_path file with
  | Some (SourceDoc src) =>
      exists c st',
        R2.cycle w file (sourceHash_of file) src st = (c, st')
        /\ R2.process_source w file st = (Normal tt, st')
  | _ => exists message, R2.process_source w file st = (Throw message, st)
  end.
Proof.
  unfold R2.process_source, bind, readSource, try_catch, ret.
  destruct (files st !! Fs.source_path file) as [[| |src|]|]; eauto.
  destruct (R2.cycle w file (sourceHash_of file) src st) as [[[]|message] st'] eqn:Hc; eauto.
Qed.

(** A property of the store kept by every turn of a loop is kept by the
    loop, also when the loop is left by a throw. *)
Lemma for_each_invariant {A} (P : Store -> Prop) (body : A -> M unit) (l : list A) :
  (forall x st, P st -> P (snd (body x st))) ->
  forall st, P st -> P (snd (for_each body l st)).
Proof.
  intros Hbody. induction l as [|x l IH]; intros st HP; [exact HP|].
  cbn [for_each]. unfold bind.
  pose proof (Hbody x st HP) as Hx.
  destruct (body x st) as [[[]|message] st1]; cbn [snd] in *; auto.
Qed.

Lemma fetchFeed_transfer (w : World) (url : string) (etag lastModified : option string)
    (st st' st1 : Store) (r : FetchResult) :
  fetchFeed w url etag lastModified st = (Normal r, st') ->
  fetchFeed w url etag lastModified st1 = (Normal r, st1).
Proof.
  intros H. destruct (fetchFeed_total w url etag lastModified st1) as [r1 H1].
  pose proof (fetchFeed_store_independent w url etag lastModified st st1) as Hi.
  rewrite H, H1 in Hi. cbn [fst] in Hi. congruence.
Qed.

(** A source whose fetch is failed or unmodified is left alone by its own
    turn of the loop: the whole store stays as it is. *)
Lemma Fs_process_source_unmodified (w : World) (file : string) (st : Store)
    (src : Source) (r : FetchResult) :
  files st !! Fs.source_path file = Some (SourceDoc src) ->
  fetchFeed w (base64_decode w (u src)) (etag src) (lastModified src) st = (Normal r, st) ->
  modified r = false ->
  snd (Fs.process_source w file st) = st.
Proof.
  intros Hsrc Hr Hm.
  destruct (Fs_process_source_cases w file st) as [H|(src' & c & Hsrc' & _ & Hc & _)];
    [exact H|].
  assert (src' = src) as -> by congruence.
  destruct (Fs_cycle_spec _ _ _ _ _ _ _ Hc) as (r' & Hr' & _ & _ & _ & Hun & _).
  assert (r' = r) as -> by congruence. apply Hun, Hm.
Qed.

Lemma R2_process_source_unmodified (w : World) (file : string) (st : Store)
    (src : Source) (r : FetchResult) :
  files st !! Fs.source_path file = Some (SourceDoc src) ->
  fetchFeed w (base64_decode w (u src)) (etag src) (lastModified src) st = (Normal r, st) ->
  modified r = false ->
  snd (R2.process_source w file st) = st.
Proof.
  intros Hsrc Hr Hm. pose proof (R2_process_source_spec w file st) as H.
  rewrite Hsrc in H. destruct H as (c & st' & Hc & ->). cbn [snd].
  destruct (R2_cycle_spec _ _ _ _ _ _ _ Hc) as (r' & Hr' & _ & Hun & _).
  assert (r' = r) as -> by congruence. apply Hun, Hm.
Qed.

(** The turn of another source does not touch the configuration of this
    one. *)
Lemma Fs_process_source_frame (w : World) (file other : string) (st : Store) :
  JS.endsWith ".json" other = true ->
  other <> file ->
  files (snd (Fs.process_source w other st)) !! Fs.source_path file
  = files st !! Fs.source_path file.
Proof.
  intros Hjson Hne.
  destruct (Fs_process_source_cases w other st) as [->|(src & c & _ & _ & Hc & _)];
    [reflexivity|].
  destruct (Fs_cycle_spec _ _ _ _ _ _ _ Hc) as (_ & _ & _ & _ & Hframe & _).
  apply Hframe.
  - intros id. apply hash_path_not_source.
  - apply not_eq_sym, source_path_not_manifest.
  - intros Heq. symmetry in Heq. apply source_path_inj in Heq; [congruence|exact Hjson].
Qed.

Lemma R2_process_source_frame (w : World) (file other : string) (st : Store) :
  JS.endsWith ".json" other = true ->
  other <> file ->
  files (snd (R2.process_source w other st)) !! Fs.source_path file
  = files st !! Fs.source_path file.
Proof.
  intros Hjson Hne. pose proof (R2_process_source_spec w other st) as H.
  destruct (files st !! Fs.source_path other) as [[| |src|]|];
    try (destruct H as [message ->]; reflexivity).
  destruct H as (c & st' & Hc & ->). cbn [snd].
  destruct (R2_cycle_spec _ _ _ _ _ _ _ Hc) as (_ & _ & Hframe & _).
  apply Hframe. intros Heq. symmetry in Heq.
  apply source_path_inj in Heq; [congruence|exact Hjson].
Qed.

(** A property of the store kept by the turns of the elements of a list is
    kept by the loop over the list. *)
Lemma for_each_invariant_in {A} (P : Store -> Prop) (body : A -> M unit) (l : list A) :
  (forall x st, In x l -> P st -> P (snd (body x st))) ->
  forall st, P st -> P (snd (for_each body l st)).
Proof.
  induction l as [|x l IH]; intros Hbody st HP; [exact HP|].
  cbn [for_each]. unfold bind.
  pose proof (Hbody x st (or_introl eq_refl) HP) as Hx.
  destruct (body x st) as [[[]|message] st1]; cbn [snd] in *; auto.
  apply IH; [|exact Hx]. intros y st' Hy. apply Hbody. right. exact Hy.
Qed.

Lemma selected_json (listing : list string) (file : string) :
  In file (filter (fun f => JS.endsWith ".json" f = true) listing) ->
  JS.endsWith ".json" file = true.
Proof.
  intros H. apply list_elem_of_In, list_elem_of_filter in H as [H _]. exact H.
Qed.

(** Over a whole run, whatever the other sources do. *)
Lemma Fs_main_unmodified (w : World) (listing : list string) (file : string)
    (st : Store) (src : Source) (r : FetchResult) :
  files st !! Fs.source_path file = Some (SourceDoc src) ->
  fetchFeed w (base64_decode w (u src)) (etag src) (lastModified src) st = (Normal r, st) ->
  modified r = false ->
  files (snd (Fs.main w listing st)) !! Fs.source_path file = Some (SourceDoc src).
Proof.
  intros Hsrc Hr Hm. unfold Fs.main, bind.
  set (P := fun st' : Store => files st' !! Fs.source_path file = Some (SourceDoc src)).
  assert (Hloop : P (snd (for_each (Fs.process_source w)
                             (filter (fun f => JS.endsWith ".json" f = true) listing) st))).
  { apply for_each_invariant_in; [|exact Hsrc].
    intros other st1 Hin HP. destruct (decide (other = file)) as [->|Hne].
    - rewrite (Fs_process_source_unmodified w file st1 src r); auto.
      eapply fetchFeed_transfer, Hr.
    - unfold P. rewrite Fs_process_source_frame; [exact HP| |exact Hne].
      exact (selected_json _ _ Hin). }
  destruct (for_each _ _ st) as [[[]|message] st1]; cbn [snd] in *; [|exact Hloop].
  unfold writeFileSync. destruct (write_fails w _); cbn [snd files]; [exact Hloop|].
  rewrite lookup_insert_ne; [exact Hloop|].
  rewrite marker_path. intros Heq. pose proof (source_path_prefix file) as Hp.
  rewrite <- Heq in Hp. discriminate.
Qed.

Lemma R2_main_unmodified (w : World) (listing : list string) (file : string)
    (st : Store) (src : Source) (r : FetchResult) :
  files st !! Fs.source_path file = Some (SourceDoc src) ->
  fetchFeed w (base64_decode w (u src)) (etag src) (lastModified src) st = (Normal r, st) ->
  modified r = false ->
  files (snd (R2.main w listing st)) !! Fs.source_path file = Some (SourceDoc src).
Proof.
  intros Hsrc Hr Hm. unfold R2.main.
  apply (for_each_invariant_in
           (fun st' => files st' !! Fs.source_path file = Some (SourceDoc src)));
    [|exact Hsrc].
  intros other st1 Hin HP. destruct (decide (other = file)) as [->|Hne].
  - rewrite (R2_process_source_unmodified w file st1 src r); auto.
    eapply fetchFeed_transfer, Hr.
  - rewrite R2_process_source_frame; [exact HP| |exact Hne].
    exact (selected_json _ _ Hin).
Qed.

(** ** Validators *)

(** C3: when the fetch of a source is classified failed or unmodified (its
    result is not a modified one), the turn of that source writes nothing,
    in either script, and after the whole run the stored validators of the
    source are those from before the run.  The validators of a source
    change in its turn only if the fetch was classified modified and the
    cycle ran to its end without an error. *)
Theorem validators_kept_unless_modified (w : World) (file : string) (st : Store)
    (src : Source) (r : FetchResult) :
  files st !! Fs.source_path file = Some (SourceDoc src) ->
  fetchFeed w (base64_decode w (u src)) (etag src) (lastModified src) st = (Normal r, st) ->
  (modified r = false ->
   snd (Fs.process_source w file st) = st
   /\ snd (R2.process_source w file st) = st
   /\ forall listing,
        validators (snd (Fs.main w listing st)) file = validators st file
        /\ validators (snd (R2.main w listing st)) file = validators st file)
  /\ (validators (snd (Fs.process_source w file st)) file <> validators st file ->
      modified r = true
      /\ exists st', Fs.cycle w file (sourceHash_of file) src st = (Normal tt, st'))
  /\ (validators (snd (R2.process_source w file st)) file <> validators st file ->
      modified r = true
      /\ exists st', R2.cycle w file (sourceHash_of file) src st = (Normal tt, st')).
Proof.
  intros Hsrc Hr. split; [|split].
  - intros Hm. split; [|split].
    + eapply Fs_process_source_unmodified; eauto.
    + eapply R2_process_source_unmodified; eauto.
    + intros listing. unfold validators.
      rewrite (Fs_main_unmodified w listing file st src r Hsrc Hr Hm).
      rewrite (R2_main_unmodified w listing file st src r Hsrc Hr Hm).
      rewrite Hsrc. auto.
  - intros Hchanged.
    destruct (Fs_process_source_cases w file st) as [H|(src' & c & Hsrc' & _ & Hc & _)];
      [rewrite H in Hchanged; contradiction|].
    assert (src' = src) as -> by congruence.
    destruct (Fs_cycle_spec _ _ _ _ _ _ _ Hc) as (r' & Hr' & _ & _ & _ & Hun & Hmod).
    assert (r' = r) as -> by congruence.
    destruct (modified r) eqn:Hm.
    + split; [reflexivity|]. specialize (Hmod eq_refl).
      destruct c as [[]|message]; [eauto|].
      exfalso. apply Hchanged. unfold validators. rewrite Hmod. reflexivity.
    + destruct (Hun eq_refl) as [_ Heq]. rewrite Heq in Hchanged. contradiction.
  - intros Hchanged. pose proof (R2_process_source_spec w file st) as H.
    rewrite Hsrc in H. destruct H as (c & st' & Hc & Hp).
    rewrite Hp in Hchanged. cbn [snd] in Hchanged.
    destruct (R2_cycle_spec _ _ _ _ _ _ _ Hc) as (r' & Hr' & _ & Hun & Hmod).
    assert (r' = r) as -> by congruence.
    destruct (modified r) eqn:Hm.
    + split; [reflexivity|]. specialize (Hmod eq_refl).
      destruct c as [[]|message]; [eauto|].
      exfalso. apply Hchanged. unfold validators. rewrite Hmod. reflexivity.
    + destruct (Hun eq_refl) as [_ ->]. contradiction.
Qed.

(** On a 304 reply, and on a 500 reply, the example store is left as it
    is. *)
Lemma validators_kept_unless_modified_witness :
  snd (Fs.process_source (example_world reply_304 []) "news.json" example_store)
  = example_store
  /\ snd (R2.process_source (example_world reply_500 []) "news.json" example_store)
    = example_store.
Proof.
  split.
  - refine (proj1 (proj1 (validators_kept_unless_modified
              (example_world reply_304 []) "news.json" example_store example_source
              no_change _ _) _)); reflexivity.
  - refine (proj1 (proj2 (proj1 (validators_kept_unless_modified
              (example_world reply_500 []) "news.json" example_store example_source
              (failed "HTTP 500") _ _) _))); reflexivity.
Defined.

Lemma fetchFeed_of_response (w : World) (url : string) (etag lastModified : option string)
    (st : Store) (response : Response) (body : string) :
  fetch w url (request_headers etag lastModified) = Normal response ->
  status response <> 304 -> ok response = true -> text response = Normal body ->
  fetchFeed w url etag lastModified st
  = (Normal {| modified := true; xml := Some body;
               res_etag := header_etag response;
               res_lastModified := header_last_modified response;
               error := None |}, st).
Proof.
  intros Hf H304 Hok Hbody.
  destruct (fetchFeed_cases w url etag lastModified st) as (r & Hr & Hcase).
  rewrite Hf in Hcase. apply Z.eqb_neq in H304. rewrite H304, Hok, Hbody in Hcase.
  cbn [negb] in Hcase. rewrite Hr, Hcase. reflexivity.
Qed.

(** C10: when the server answers with a successful reply other than 304
    and the cycle of the source runs to its end, the validators stored for
    the source are exactly the two caching headers of the reply: a header
    that the reply carries is stored as it was received, and the empty
    string is stored for a header that the reply does not carry.  So a
    reply with both headers stores both, whatever was stored before, and a
    reply without caching headers replaces the stored validators by two
    empty strings.  This holds in both scripts; in the file-system script
    the cycle is run once the item directory of the source is in place. *)
Theorem validators_set_from_response (w : World) (file : string) (st : Store)
    (src : Source) (response : Response) (body : string) :
  files st !! Fs.source_path file = Some (SourceDoc src) ->
  fetch w (base64_decode w (u src)) (request_headers (etag src) (lastModified src))
  = Normal response ->
  status response <> 304 -> ok response = true -> text response = Normal body ->
  let received (header : option string) : string :=
    match header with
    | Some value => value
    | None => EmptyString
    end in
  let stored :=
    Some (Some (received (header_etag response)),
          Some (received (header_last_modified response))) in
  (mkdir_fails w (Fs.item_dir (sourceHash_of file)) = false ->
   fst (Fs.cycle w file (sourceHash_of file) src st) = Normal tt ->
   validators (snd (Fs.process_source w file st)) file = stored)
  /\ (fst (R2.cycle w file (sourceHash_of file) src st) = Normal tt ->
      validators (snd (R2.process_source w file st)) file = stored)
  /\ (forall tag date, header_etag response = Some tag ->
        header_last_modified response = Some date ->
        stored = Some (Some tag, Some date))
  /\ (header_etag response = None -> header_last_modified response = None ->
      stored = Some (Some EmptyString, Some EmptyString)).
Proof.
  intros Hsrc Hf H304 Hok Hbody received stored.
  pose proof (fetchFeed_of_response w _ _ _ st response body Hf H304 Hok Hbody) as Hr.
  assert (Hreceived : forall header, JS.or_str header EmptyString = received header).
  { intros [value|]; [|reflexivity]. cbn [JS.or_str]. subst received.
    destruct (String.eqb value "") eqn:H; [|reflexivity].
    apply String.eqb_eq in H. subst value. reflexivity. }
  split; [|split; [|split]].
  - intros Hdir Hdone. pose proof (Fs_process_source_spec w file st) as H.
    rewrite Hsrc, Hdir in H. destruct H as (c & st' & Hc & ->). cbn [snd].
    rewrite Hc in Hdone. cbn [fst] in Hdone. subst c.
    destruct (Fs_cycle_spec _ _ _ _ _ _ _ Hc) as (r & Hr' & _ & _ & _ & _ & Hmod).
    rewrite Hr in Hr'. injection Hr' as <-. cbn [modified] in Hmod.
    destruct (Hmod eq_refl) as (items & _ & _ & _ & Hdoc).
    unfold validators. rewrite Hdoc. cbn [etag lastModified res_etag res_lastModified].
    rewrite !Hreceived. reflexivity.
  - intros Hdone. pose proof (R2_process_source_spec w file st) as H.
    rewrite Hsrc in H. destruct H as (c & st' & Hc & ->). cbn [snd].
    rewrite Hc in Hdone. cbn [fst] in Hdone. subst c.
    destruct (R2_cycle_spec _ _ _ _ _ _ _ Hc) as (r & Hr' & _ & _ & Hmod).
    rewrite Hr in Hr'. injection Hr' as <-. cbn [modified] in Hmod.
    specialize (Hmod eq_refl). unfold validators. rewrite Hmod.
    cbn [etag lastModified res_etag res_lastModified].
    rewrite !Hreceived. reflexivity.
  - subst stored. intros tag date -> ->. reflexivity.
  - subst stored. intros -> ->. reflexivity.
Qed.

(** The example source holds the validators [v1] and a date.  A modified
    reply with the entity tag [v2] and a later date has both stored in
    their place, in both scripts; a modified reply without caching headers
    leaves two empty strings. *)
Lemma validators_set_from_response_witness :
  validators example_store "news.json"
  = Some (Some "v1", Some nov_1)
  /\ validators
       (snd (Fs.process_source
               (example_world (reply_200 (Some "v2") (Some "Mon, 03 Nov 2025 00:00:00 GMT"))
                  two_items)
               "news.json" example_store)) "news.json"
     = Some (Some "v2", Some "Mon, 03 Nov 2025 00:00:00 GMT")
  /\ validators
       (snd (R2.process_source
               (example_world (reply_200 (Some "v2") (Some "Mon, 03 Nov 2025 00:00:00 GMT"))
                  two_items)
               "news.json" example_store)) "news.json"
     = Some (Some "v2", Some "Mon, 03 Nov 2025 00:00:00 GMT")
  /\ validators
       (snd (Fs.process_source (example_world (reply_200 None None) two_items)
               "news.json" example_store)) "news.json"
     = Some (Some EmptyString, Some EmptyString).
Proof.
  split; [reflexivity|]. split; [|split].
  - refine (proj1 (validators_set_from_response
              (example_world (reply_200 (Some "v2") (Some "Mon, 03 Nov 2025 00:00:00 GMT"))
                 two_items)
              "news.json" example_store example_source
              (response_200 (Some "v2") (Some "Mon, 03 Nov 2025 00:00:00 GMT"))
              "<rss/>" _ _ _ _ _) _ _);
      try discriminate; vm_compute; reflexivity.
  - refine (proj1 (proj2 (validators_set_from_response
              (example_world (reply_200 (Some "v2") (Some "Mon, 03 Nov 2025 00:00:00 GMT"))
                 two_items)
              "news.json" example_store example_source
              (response_200 (Some "v2") (Some "Mon, 03 Nov 2025 00:00:00 GMT"))
              "<rss/>" _ _ _ _ _)) _);
      try discriminate; vm_compute; reflexivity.
  - refine (proj1 (validators_set_from_response
              (example_world (reply_200 None None) two_items) "news.json" example_store
              example_source (response_200 None None) "<rss/>" _ _ _ _ _) _ _);
      try discriminate; vm_compute; reflexivity.
Defined.

(** ** Manifest *)

Lemma lookup_map {A B} (f : A -> B) (l : list A) (i : nat) (x : A) :
  l !! i = Some x -> map f l !! i = Some (f x).
Proof.
  revert i. induction l as [|y l IH]; intros [|i] H; try discriminate.
  - injection H as ->. reflexivity.
  - cbn in *. auto.
Qed.

Lemma Fs_cycle_unfold (w : World) (file sourceHash : string) (src : Source)
    (st : Store) (r : FetchResult) (items : list RawItem) :
  fetchFeed w (base64_decode w (u src)) (etag src) (lastModified src) st = (Normal r, st) ->
  modified r = true ->
  parseString w (default EmptyString (xml r)) = Normal items ->
  Fs.cycle w file sourceHash src st
  = (let* manifest := Fs.sync_items w file sourceHash 0 items [] in
     let* _ := writeFileSync w (Fs.manifest_path sourceHash) (ManifestDoc manifest) in
     writeFileSync w (Fs.source_path file)
       (SourceDoc {| u := u src;
                     etag := Some (JS.or_str (res_etag r) EmptyString);
                     lastModified := Some (JS.or_str (res_lastModified r) EmptyString) |}))
      st.
Proof.
  intros Hr Hm Hparse. unfold Fs.cycle. unfold bind at 1. rewrite Hr, Hm.
  unfold bind at 1, lift. rewrite Hparse. reflexivity.
Qed.





Lemma manifest_of_two_items :
  map manifest_entry two_items
  = [ {| g := "urn:post:1"; h := "e2c5f07000f9" |};
      {| g := "https://example.org/post/2"; h := "88c052897428" |} ].
Proof. by_evaluation. Qed.

(** ** Item documents *)

(** The file-system script never changes an item document that exists:
    one turn of the loop keeps every file under [items/]. *)
Lemma Fs_process_source_keeps_items (w : World) (file : string) (st : Store)
    (p : string) (d : Doc) :
  String.prefix "items/" p = true ->
  files st !! p = Some d ->
  files (snd (Fs.process_source w file st)) !! p = Some d.
Proof.
  intros Hp Hd.
  destruct (Fs_process_source_cases w file st) as [->|(src & c & _ & _ & Hc & _)];
    [exact Hd|].
  destruct (Fs_cycle_spec _ _ _ _ _ _ _ Hc) as (_ & _ & _ & Hkept & _). eauto.
Qed.

(** Over a whole run of the file-system script: a document under [items/]
    (the marker file [.nojekyll] apart, which every run rewrites) is the
    same after the run, whatever the feeds now hold. *)
Lemma Fs_main_keeps_items (w : World) (listing : list string) (st : Store)
    (p : string) (d : Doc) :
  String.prefix "items/" p = true -> p <> path_join ITEMS_ROOT ".nojekyll" ->
  files st !! p = Some d ->
  files (snd (Fs.main w listing st)) !! p = Some d.
Proof.
  intros Hp Hne Hd. unfold Fs.main, bind.
  pose proof (for_each_invariant (fun st' => files st' !! p = Some d)
                (Fs.process_source w)
                (filter (fun f => JS.endsWith ".json" f = true) listing)
                (fun file st1 H => Fs_process_source_keeps_items w file st1 p d Hp H)
                st Hd) as Hloop.
  destruct (for_each _ _ st) as [[[]|message] st1]; cbn [snd] in *; [|exact Hloop].
  unfold writeFileSync. destruct (write_fails w _); cbn [snd files]; [exact Hloop|].
  rewrite lookup_insert_ne by auto. exact Hloop.
Qed.

(** And over any number of runs. *)
Lemma Fs_runs_keep_items (worlds : list (World * list string)) (st : Store)
    (p : string) (d : Doc) :
  String.prefix "items/" p = true -> p <> path_join ITEMS_ROOT ".nojekyll" ->
  files st !! p = Some d ->
  files (runs Fs.main worlds st) !! p = Some d.
Proof.
  intros Hp Hne. revert st. unfold runs.
  induction worlds as [|[w listing] worlds IH]; intros st Hd; [exact Hd|].
  cbn [fold_left fst snd]. apply IH. apply Fs_main_keeps_items; auto.
Qed.

(** In the file-system script an item file is written only when no file
    exists at its path: whatever a path holds before the item loop, it
    holds after it, also when the loop is left by a throw. *)
Lemma Fs_sync_items_writes_absent (w : World) (file sourceHash : string)
    (items : list RawItem) (i : nat) (manifest : list ManifestEntry) (st : Store)
    (p : string) (d : Doc) :
  files st !! p = Some d ->
  files (snd (Fs.sync_items w file sourceHash i items manifest st)) !! p = Some d.
Proof.
  intros Hd.
  destruct (Fs.sync_items w file sourceHash i items manifest st) as [c st1] eqn:Hs.
  destruct (Fs_sync_items_spec _ _ _ _ _ _ _ _ _ Hs) as (_ & _ & Hkept & _).
  cbn [snd]. auto.
Qed.

(** An upload that is not rejected replaces whatever the bucket holds
    under the key. *)
Lemma R2_upload_replaces (w : World) (key : string) (data : Doc) (st : Store) :
  put_fails w key = false ->
  uploadToR2 w key data st
  = (Normal tt, {| files := files st; bucket := <[key := data]> (bucket st) |})
  /\ bucket (snd (uploadToR2 w key data st)) !! key = Some data.
Proof.
  intros H. unfold uploadToR2, try_catch. rewrite H. split; [reflexivity|].
  apply lookup_insert_eq.
Qed.

(** C1, at an input on which the two scripts differ.  The entry
    [urn:post:1] of the feed is first fetched with the title [Old title]
    and later with the title [New title].  The object-storage script
    uploads the item again in the second cycle, with no test for an
    existing object, and the document stored under the key of the item is
    replaced; the file-system script, which tests [fs.existsSync] before it
    writes, keeps the document of the first cycle. *)
Theorem R2_item_document_overwritten :
  let key := R2.item_key "news" (getHash "urn:post:1") in
  let path := Fs.item_path "news" (getHash "urn:post:1") in
  let r2_first := snd (R2.process_source world_old "news.json" example_store) in
  let r2_second := snd (R2.process_source world_new "news.json" r2_first) in
  let fs_first := snd (Fs.process_source world_old "news.json" example_store) in
  let fs_second := snd (Fs.process_source world_new "news.json" fs_first) in
  (title <$> stored_item (bucket r2_first) key
   = Some (Some (h1 "https://example.org/post/1" "Old title"))
   /\ title <$> stored_item (bucket r2_second) key
     = Some (Some (h1 "https://example.org/post/1" "New title"))
   /\ bucket r2_second !! key <> bucket r2_first !! key)
  /\ (title <$> stored_item (files fs_first) path
      = Some (Some (h1 "https://example.org/post/1" "Old title"))
      /\ files fs_second !! path = files fs_first !! path).
Proof.
  cbv zeta. split; [split; [|split]|split].
  - by_evaluation.
  - by_evaluation.
  - vm_compute. intros H. discriminate H.
  - by_evaluation.
  - by_evaluation.
Qed.

(** ** Timestamp *)

(** The timestamp of a new item is [Date.parse (pubDate) || Date.now ()]. *)
Lemma new_item_timestamp (w : World) (file sourceHash : string) (i : nat)
    (item : RawItem) (guid : option string) (sep : string) :
  timestamp (prettifyItem_with sep (sanitizeHtml w) (new_item w file i item guid) sourceHash)
  = match Date_parse w (raw_pubDate item) with
    | JS.NaN => Date_now w file i
    | JS.Num z => if z =? 0 then Date_now w file i else z
    end.
Proof. reflexivity. Qed.

(** A date that parses to a number other than zero is the timestamp, and
    an unparseable date gives the current time. *)
Lemma new_item_timestamp_parsed (w : World) (file : string) (i : nat)
    (item : RawItem) (guid : option string) (z : Z) :
  Date_parse w (raw_pubDate item) = JS.Num z -> z <> 0 ->
  timestamp (new_item w file i item guid) = z.
Proof.
  intros H Hz. cbn [new_item timestamp]. rewrite H. cbn [JS.num_or].
  apply Z.eqb_neq in Hz. rewrite Hz. reflexivity.
Qed.

Lemma new_item_timestamp_unparsed (w : World) (file : string) (i : nat)
    (item : RawItem) (guid : option string) :
  Date_parse w (raw_pubDate item) = JS.NaN ->
  timestamp (new_item w file i item guid) = Date_now w file i.
Proof. intros H. cbn [new_item timestamp]. rewrite H. reflexivity. Qed.

(** C8, at the input on which the code departs from the specification of
    the timestamp: an entry dated at the epoch.  Its date is parseable, to
    zero milliseconds; zero is falsy, so the [||] takes [Date.now ()], and
    both scripts persist the current time (3 November 2025 in the example)
    as the timestamp, not the parsed value. *)
Theorem epoch_date_persisted_as_now :
  let path := Fs.item_path "news" (getHash "urn:post:1") in
  let key := R2.item_key "news" (getHash "urn:post:1") in
  Date_parse world_epoch (Some epoch_date) = JS.Num 0
  /\ Date_now world_epoch "news.json" 0%nat = nov_3_millis
  /\ timestamp <$> stored_item
        (files (snd (Fs.process_source world_epoch "news.json" example_store))) path
     = Some nov_3_millis
  /\ timestamp <$> stored_item
        (bucket (snd (R2.process_source world_epoch "news.json" example_store))) key
     = Some nov_3_millis.
Proof. cbv zeta. split; [|split; [|split]]; by_evaluation. Qed.

(** The same feed entry with a date after the epoch keeps the parsed
    value. *)
Lemma later_date_persisted_as_parsed :
  timestamp <$> stored_item
    (files (snd (Fs.process_source world_old "news.json" example_store)))
    (Fs.item_path "news" (getHash "urn:post:1"))
  = Some 1761955200000.
Proof. by_evaluation. Qed.

(** ** Title of a processed item *)

Lemma wrapTitle_single_segment (title link : string) :
  JS.includes TITLE_SEP title = false -> wrapTitle title link = h1 link title.
Proof.
  intros H. unfold wrapTitle. rewrite wrapTitle_with_shape.
  unfold JS.split. rewrite (split_from_without_sep _ _ H).
  cbn [hd tl map String.concat]. apply app_empty_r.
Qed.

(** C9: the title of a processed item does not pass through the sanitizer.
    [prettifyItem] gives the same title whatever the sanitizer is, namely
    [wrapTitle] of the raw title and the raw link (or their placeholders),
    and only the description is the output of [cleanHtml];
    a title without the separator and a link are copied into the template
    byte for byte.  In the example the sanitizer removes all markup from
    the description, and the title that is persisted still holds the
    script element of the feed title and the quote of the link that ends
    the [href] attribute and starts an [onclick] attribute. *)
Theorem title_not_sanitized :
  (forall (sanitize1 sanitize2 : string -> SanitizeOptions -> string)
          (item : Item) (sourceHash : string),
      title (prettifyItem sanitize1 item sourceHash)
      = title (prettifyItem sanitize2 item sourceHash))
  /\ (forall sanitize item sourceHash,
        title (prettifyItem sanitize item sourceHash)
        = Some (wrapTitle (JS.or_str (title item) "No Title") (JS.or_str (link item) "#"))
        /\ description (prettifyItem sanitize item sourceHash)
          = Some (cleanHtml sanitize (Some (JS.or_str (description item) EmptyString)))
        /\ guid (prettifyItem sanitize item sourceHash) = guid item
        /\ link (prettifyItem sanitize item sourceHash) = link item
        /\ pubDate (prettifyItem sanitize item sourceHash) = pubDate item)
  /\ (forall title link, JS.includes TITLE_SEP title = false ->
        wrapTitle title link = h1 link title
        /\ JS.includes title (wrapTitle title link) = true
        /\ JS.includes link (wrapTitle title link) = true)
  /\ (let persisted :=
        stored_item
          (files (snd (Fs.process_source world_hostile "news.json" example_store)))
          (Fs.item_path "news" (getHash "urn:post:1")) in
      (persisted ≫= title) = Some (h1 breaking_link script_title)
      /\ (persisted ≫= description) = Some "&lt;script>alert(2)&lt;/script>"
      /\ JS.includes "<script>alert(1)</script>" (default EmptyString (persisted ≫= title))
         = true
      /\ JS.includes (dquote +:+ " onclick=" +:+ dquote +:+ "alert(1)" +:+ dquote)
                     (default EmptyString (persisted ≫= title))
         = true).
Proof.
  split; [reflexivity|]. split; [repeat split|]. split.
  - intros title link H. rewrite (wrapTitle_single_segment _ _ H).
    split; [reflexivity|]. unfold h1.
    split; repeat first [apply includes_here, prefix_app | apply includes_app_l].
  - cbv zeta. split; [|split; [|split]]; by_evaluation.
Qed.

(** ** Sanitizer *)

Lemma escape_markup_no_tag (html : string) :
  tag_bodies None (escape_markup html) = [].
Proof.
  induction html as [|ch rest IH]; [reflexivity|].
  cbn [escape_markup]. destruct (Ascii.eqb ch "<") eqn:Hch.
  - exact IH.
  - cbn [tag_bodies]. rewrite Hch. exact IH.
Qed.

Section Sanitizer.

(** The [sanitize-html] package, and a reading of the tags and of the
    (tag, attribute) pairs that occur as markup in an HTML text.  What is
    assumed of the package is what its two options promise: the output
    has no tag outside [allowedTags] and, on a tag, no attribute outside
    the list that [allowedAttributes] gives for that tag. *)
Variable sanitize : string -> SanitizeOptions -> string.
Variable tags_of : string -> list string.
Variable attributes_of : string -> list (string * string).

Hypothesis tags_of_empty : tags_of EmptyString = [].
Hypothesis attributes_of_empty : attributes_of EmptyString = [].
Hypothesis sanitize_tags :
  forall html options tag,
    In tag (tags_of (sanitize html options)) -> In tag (allowedTags options).
Hypothesis sanitize_attributes :
  forall html options tag attribute,
    In (tag, attribute) (attributes_of (sanitize html options)) ->
    exists allowed, In (tag, allowed) (allowedAttributes options) /\ In attribute allowed.

(** C4: whatever the input, the output of [cleanHtml] has no tag outside
    the allow-list and no attribute outside the allow-list of its tag, so
    a disallowed tag or attribute of the input is not in the output; and
    for an absent input ([null], [undefined] or the empty string) the
    output is the empty string, the package not being called. *)
Theorem cleanHtml_closure (html : option string) :
  (forall tag, ~ spec_allowed_tag tag -> ~ In tag (tags_of (cleanHtml sanitize html)))
  /\ (forall tag attribute,
        ~ spec_allowed_attribute tag attribute ->
        ~ In (tag, attribute) (attributes_of (cleanHtml sanitize html)))
  /\ cleanHtml sanitize None = EmptyString
  /\ cleanHtml sanitize (Some EmptyString) = EmptyString.
Proof.
  split; [|split; [|split; reflexivity]].
  - intros tag Hno Hin. apply Hno. unfold cleanHtml in Hin.
    destruct (negb (JS.truthy html)).
    + rewrite tags_of_empty in Hin. contradiction.
    + apply sanitize_tags in Hin. exact Hin.
  - intros tag attribute Hno Hin. apply Hno. unfold cleanHtml in Hin.
    destruct (negb (JS.truthy html)).
    + rewrite attributes_of_empty in Hin. contradiction.
    + apply sanitize_attributes in Hin as (allowed & Hrow & Hattr).
      cbn [allowedAttributes ALLOWED_ATTRIBUTES In] in Hrow.
      unfold spec_allowed_attribute.
      destruct Hrow as [[= <- <-]|[[= <- <-]|[[= <- <-]|[]]]]; auto.
Qed.

End Sanitizer.

(** The sanitizer of the examples keeps what is assumed of the package. *)
Lemma escape_markup_tags (html : string) (options : SanitizeOptions) (tag : string) :
  In tag (scan_tags (escape_markup html)) -> In tag (allowedTags options).
Proof. unfold scan_tags. rewrite escape_markup_no_tag. intros []. Qed.

Lemma escape_markup_attributes (html : string) (options : SanitizeOptions)
    (tag attribute : string) :
  In (tag, attribute) (scan_attributes (escape_markup html)) ->
  exists allowed, In (tag, allowed) (allowedAttributes options) /\ In attribute allowed.
Proof. unfold scan_attributes. rewrite escape_markup_no_tag. intros []. Qed.

(** With the sanitizer of the examples, which leaves no markup: a script
    element and an [onclick] attribute of the input are not in the
    output. *)
Lemma cleanHtml_closure_witness :
  ~ In "script"
      (scan_tags (cleanHtml (fun html _ => escape_markup html)
                            (Some "<script>alert(1)</script><p onclick=x>text</p>")))
  /\ ~ In ("p", "onclick")
        (scan_attributes (cleanHtml (fun html _ => escape_markup html)
                            (Some "<script>alert(1)</script><p onclick=x>text</p>")))
  /\ In "script" (scan_tags "<script>alert(1)</script><p onclick=x>text</p>")
  /\ In ("p", "onclick") (scan_attributes "<script>alert(1)</script><p onclick=x>text</p>").
Proof.
  pose proof (cleanHtml_closure (fun html _ => escape_markup html)
                scan_tags scan_attributes eq_refl eq_refl
                escape_markup_tags escape_markup_attributes
                (Some "<script>alert(1)</script><p onclick=x>text</p>"))
    as (Htags & Hattrs & _).
  split; [|split; [|split]].
  - apply Htags. unfold spec_allowed_tag. cbn [In]. intuition discriminate.
  - apply Hattrs. unfold spec_allowed_attribute. cbn [In]. intuition discriminate.
  - vm_compute. auto.
  - vm_compute. auto.
Defined.


(** * Further properties *)

(** ** Title formatter of [scripts/ingest-rss.js] *)

Lemma includes_length (p s : string) :
  JS.includes p s = true -> (String.length p <= String.length s)%nat.
Proof.
  induction s as [|a s IH]; cbn [JS.includes]; intros H.
  - rewrite orb_false_r in H. apply prefix_length, H.
  - apply orb_true_iff in H as [H|H]; [apply prefix_length, H|].
    apply IH in H. cbn [String.length]. lia.
Qed.

(** Whether a text begins with a pattern is settled by as many bytes as
    the pattern has. *)
Lemma prefix_shorten (p s r : string) :
  String.prefix p (s +:+ r) = true -> (String.length p <= String.length s)%nat ->
  String.prefix p s = true.
Proof.
  revert s. induction p as [|a p IH]; intros s H Hlen; [apply prefix_empty|].
  destruct s as [|b s]; [cbn [String.length] in Hlen; lia|].
  rewrite app_cons in H. apply prefix_cons in H as [-> H].
  apply prefix_cons. split; [reflexivity|]. apply IH; [exact H|].
  cbn [String.length] in Hlen. lia.
Qed.

Lemma leftmost_cut_cons (sep part : string) (rest : list string) :
  rest <> [] ->
  leftmost_cut sep (part :: rest)
  <-> JS.includes sep (part +:+ slice_last sep) = false /\ leftmost_cut sep rest.
Proof. destruct rest; [contradiction|reflexivity]. Qed.

(** [split] cuts from the left. *)
Lemma split_from_leftmost (sep front : string) (last : ascii) (s : string) (k : nat) :
  sep = front +:+ String last EmptyString ->
  leftmost_cut sep (JS.split_from sep k s).
Proof.
  intros Hsep.
  assert (Hne : sep <> EmptyString) by (subst sep; destruct front; discriminate).
  assert (Hfront : slice_last sep = front) by (subst sep; apply slice_last_app).
  assert (Hshort : JS.includes sep front = false).
  { destruct (JS.includes sep front) eqn:H; [|reflexivity].
    apply includes_length in H. subst sep. rewrite length_app_str in H.
    cbn [String.length] in H. lia. }
  revert k. induction s as [|a s IH]; intros k.
  - cbn. destruct sep; [contradiction|reflexivity].
  - destruct k as [|k]; [|apply IH]. cbn [JS.split_from].
    destruct (String.prefix sep (String a s)) eqn:Hp.
    + apply leftmost_cut_cons; [apply split_from_nonempty|].
      split; [|apply IH]. rewrite Hfront, app_empty_l. exact Hshort.
    + pose proof (IH 0%nat) as H0.
      pose proof (join_split sep s Hne) as Hj. unfold JS.split in Hj.
      destruct (JS.split_from sep 0 s) as [|seg segs] eqn:Hs;
        [destruct (split_from_nonempty _ _ _ Hs)|].
      destruct segs as [|seg' segs].
      * cbn [leftmost_cut JS.join] in H0, Hj |- *. subst seg.
        cbn [JS.includes]. rewrite Hp, H0. reflexivity.
      * apply leftmost_cut_cons in H0 as [Hseg Hrest]; [|discriminate].
        apply leftmost_cut_cons; [discriminate|]. split; [|exact Hrest].
        rewrite app_cons. cbn [JS.includes]. rewrite Hseg, orb_false_r.
        destruct (String.prefix sep (String a (seg +:+ slice_last sep))) eqn:Hp';
          [|reflexivity].
        rewrite <- app_cons in Hp'.
        apply (prefix_app_mono _ _ (String last EmptyString
                                     +:+ JS.join sep (seg' :: segs))) in Hp'.
        assert (Heq : (String a seg +:+ slice_last sep)
                      +:+ String last EmptyString +:+ JS.join sep (seg' :: segs)
                      = String a s).
        { rewrite <- Hj. rewrite (join_cons sep seg (seg' :: segs)) by discriminate.
          rewrite Hfront.
          generalize (JS.join sep (seg' :: segs)) as t. intros t.
          rewrite Hsep, !app_assoc_str, app_cons. reflexivity. }
        rewrite Heq in Hp'. congruence.
Qed.

(** A separator that is met first right after a segment ends the
    segment. *)
Lemma split_at_first (sep front : string) (last : ascii) (part rest : string) :
  sep = front +:+ String last EmptyString ->
  JS.includes sep (part +:+ front) = false ->
  JS.split_from sep 0 (part +:+ sep +:+ rest) = part :: JS.split_from sep 0 rest.
Proof.
  intros Hsep. induction part as [|a part IH]; intros Hno.
  - rewrite app_empty_l.
    destruct sep as [|b sep0] eqn:Hb; [destruct front; discriminate|].
    rewrite app_cons. cbn [JS.split_from].
    rewrite <- app_cons, prefix_app. f_equal.
    replace (String.length (String b sep0) - 1)%nat with (String.length sep0)
      by (cbn [String.length]; lia).
    rewrite split_from_skip by (rewrite length_app_str; lia).
    rewrite drop_app_length. reflexivity.
  - rewrite app_cons in Hno. cbn [JS.includes] in Hno.
    apply orb_false_iff in Hno as [Hp Hrest].
    rewrite app_cons. cbn [JS.split_from].
    destruct (String.prefix sep (String a (part +:+ sep +:+ rest))) eqn:Hp'.
    + exfalso.
      assert (Heq : String a (part +:+ sep +:+ rest)
                    = String a (part +:+ front) +:+ String last EmptyString +:+ rest).
      { rewrite Hsep, !app_cons, !app_assoc_str. reflexivity. }
      rewrite Heq in Hp'. apply prefix_shorten in Hp'; [congruence|].
      rewrite Hsep. cbn [String.length].
      rewrite !length_app_str. cbn [String.length]. lia.
    + rewrite (IH Hrest). reflexivity.
Qed.

(** So a text has one cut from the left only: the one that [split]
    makes. *)
Lemma leftmost_cut_unique (sep front : string) (last : ascii) (parts : list string) :
  sep = front +:+ String last EmptyString ->
  leftmost_cut sep parts ->
  JS.split sep (JS.join sep parts) = parts.
Proof.
  intros Hsep.
  assert (Hfront : slice_last sep = front) by (subst sep; apply slice_last_app).
  unfold JS.split. induction parts as [|part rest IH]; [contradiction|].
  destruct rest as [|part' rest].
  - intros Hno. apply split_from_without_sep, Hno.
  - intros H. apply leftmost_cut_cons in H as [Hno Hrest]; [|discriminate].
    rewrite join_cons by discriminate. rewrite Hfront in Hno.
    rewrite (split_at_first sep front last part _ Hsep Hno).
    rewrite (IH Hrest). reflexivity.
Qed.

Lemma TITLE_SEP_last :
  TITLE_SEP = String " " (String "226" (String "128" (String "148" EmptyString)))
              +:+ String " " EmptyString.
Proof. reflexivity. Qed.

(** For every title and link, [wrapTitle] of [scripts/ingest-rss.js] cuts
    the title at the occurrences of the em dash separator, read from the
    left: the segments are those of [split], joined by the separator they
    give the title back, every segment ends at the first separator that
    follows its beginning, no segment contains the separator, the first
    segment is the text of the anchor of the [<h1>] and each later segment
    is an [<h2>] of its own, in order.  A title without the separator
    gives the [<h1>] alone.  The cut from the left is the only one that
    counts: whatever segments make up the title, joined by the separator
    and cut from the left, they are the segments of the output, so that
    of a title with two separators that overlap or follow each other the
    first one is taken. *)
Theorem wrapTitle_cuts_at_em_dash (title link : string) :
  (exists first rest,
      JS.split TITLE_SEP title = first :: rest
      /\ JS.join TITLE_SEP (first :: rest) = title
      /\ leftmost_cut TITLE_SEP (first :: rest)
      /\ Forall (fun seg => JS.includes TITLE_SEP seg = false) (first :: rest)
      /\ wrapTitle title link
         = h1 link first +:+ String.concat EmptyString (map h2 rest)
      /\ (JS.includes TITLE_SEP title = false -> first = title /\ rest = []))
  /\ (forall first rest,
        JS.join TITLE_SEP (first :: rest) = title ->
        leftmost_cut TITLE_SEP (first :: rest) ->
        wrapTitle title link
        = h1 link first +:+ String.concat EmptyString (map h2 rest)).
Proof.
  split.
  - destruct (wrapTitle_splits_on_em_dash title link)
      as (first & rest & Hs & Hj & Hf & Hw).
    exists first, rest. split; [exact Hs|]. split; [exact Hj|]. split.
    { unfold JS.split in Hs. rewrite <- Hs.
      apply (split_from_leftmost _ _ _ _ _ TITLE_SEP_last). }
    split; [exact Hf|]. split; [exact Hw|].
    intros Hno. unfold JS.split in Hs. rewrite (split_from_without_sep _ _ Hno) in Hs.
    injection Hs as <- <-. auto.
  - intros first rest Hj Hcut.
    pose proof (leftmost_cut_unique _ _ _ _ TITLE_SEP_last Hcut) as Hs.
    rewrite Hj in Hs. unfold wrapTitle. rewrite wrapTitle_with_shape, Hs.
    reflexivity.
Qed.

(** Two separators that share a space: the title is cut at the first, and
    the second dash stays in the second segment. *)
Lemma wrapTitle_cuts_at_em_dash_witness :
  wrapTitle "A — — B" link_x = h1 link_x "A" +:+ h2 "— B"
  /\ wrapTitle "A — — B" link_x
     = "<h1><a href=" +:+ dquote +:+ "http://x" +:+ dquote +:+ " target=" +:+ dquote
       +:+ "_blank" +:+ dquote +:+ ">A</a></h1><h2>— B</h2>".
Proof.
  split; [|by_evaluation].
  refine (proj2 (wrapTitle_cuts_at_em_dash "A — — B" link_x) "A" ["— B"] _ _).
  - reflexivity.
  - split; reflexivity.
Defined.

(** ** Body of an item *)

Lemma or_assoc (a b c : option string) : JS.or (JS.or a b) c = JS.or a (JS.or b c).
Proof. unfold JS.or. destruct (JS.truthy a) eqn:Ha; [rewrite Ha|]; reflexivity. Qed.

Lemma or_str_or (a b : option string) (e : string) :
  JS.or_str (JS.or a b) e = if JS.truthy a then default EmptyString a else JS.or_str b e.
Proof.
  unfold JS.or, JS.truthy. destruct a as [a|]; [|reflexivity].
  destruct (String.eqb a EmptyString) eqn:Ha; cbn [negb]; [reflexivity|].
  cbn [JS.or_str default]. rewrite Ha. reflexivity.
Qed.

Lemma or_str_empty (a : option string) :
  JS.or_str a EmptyString = if JS.truthy a then default EmptyString a else EmptyString.
Proof.
  unfold JS.truthy. destruct a as [a|]; [|reflexivity].
  cbn [JS.or_str]. destruct (String.eqb a EmptyString); reflexivity.
Qed.

Lemma or_chain_first_nonempty (a b c d : option string) :
  JS.or_str (JS.or (JS.or (JS.or a b) c) d) EmptyString = first_nonempty [a; b; c; d].
Proof.
  rewrite !or_assoc, !or_str_or, or_str_empty. reflexivity.
Qed.

(** The body stored for an item is the sanitized form of the first of
    encoded content, content, summary and description that is present and
    not empty; a candidate that is the empty string is passed over like an
    absent one, and with no candidate the body is the empty string and the
    sanitizer is not called.  This holds for every title separator, so in
    every copy of [prettifyItem]. *)
Theorem description_is_first_nonempty_body (w : World) (sep file sourceHash : string)
    (i : nat) (item : RawItem) (guid : option string) :
  let body :=
    first_nonempty [raw_contentEncoded item; raw_content item;
                    raw_summary item; raw_description item] in
  description (prettifyItem_with sep (sanitizeHtml w)
                 (new_item w file i item guid) sourceHash)
  = Some (if String.eqb body EmptyString then EmptyString
          else sanitizeHtml w body
                 {| allowedTags := ALLOWED_TAGS; allowedAttributes := ALLOWED_ATTRIBUTES |}).
Proof.
  cbv zeta. cbn [prettifyItem_with description new_item].
  rewrite or_chain_first_nonempty. unfold cleanHtml, JS.truthy. cbn [default].
  destruct (String.eqb _ EmptyString); reflexivity.
Qed.

(** ** Classification of a fetch *)

(** The result of [fetchFeed] is a modified one exactly when the server
    gave a reply with a status in 200..299 whose body could be read; it is
    a no-change result without an error exactly when the reply had status
    304; in every other case it carries an error message. *)
Theorem fetchFeed_classification (w : World) (url : string)
    (etag lastModified : option string) (st : Store) :
  exists r,
    fetchFeed w url etag lastModified st = (Normal r, st)
    /\ (modified r = true <->
        exists response body,
          fetch w url (request_headers etag lastModified) = Normal response
          /\ ok response = true /\ text response = Normal body)
    /\ (modified r = false /\ error r = None <->
        exists response,
          fetch w url (request_headers etag lastModified) = Normal response
          /\ status response = 304)
    /\ (modified r = true -> error r = None /\ is_Some (xml r)).
Proof.
  destruct (fetchFeed_cases w url etag lastModified st) as (r & Hr & Hcase).
  exists r. split; [exact Hr|].
  destruct (fetch w url (request_headers etag lastModified)) as [response|message].
  - destruct (status response =? 304) eqn:H304.
    + apply Z.eqb_eq in H304. subst r. split; [|split].
      * split; [discriminate|]. intros (resp & body & [= <-] & Hok & _).
        unfold ok in Hok. rewrite H304 in Hok. discriminate.
      * split; eauto.
      * discriminate.
    + apply Z.eqb_neq in H304. destruct (ok response) eqn:Hok; cbn [negb] in Hcase.
      * destruct (text response) as [body|message] eqn:Hbody; subst r; split; [|split| |split].
        -- split; eauto.
        -- split; [intros [[=] _]|]. intros (resp & [= <-] & H). contradiction.
        -- cbn. eauto.
        -- split; [discriminate|]. intros (resp & body & [= <-] & _ & H).
           rewrite Hbody in H. discriminate.
        -- split; [intros [_ [=]]|]. intros (resp & [= <-] & H). contradiction.
        -- discriminate.
      * subst r. split; [|split].
        -- split; [discriminate|]. intros (resp & body & [= <-] & H & _). congruence.
        -- split; [intros [_ [=]]|]. intros (resp & [= <-] & H). contradiction.
        -- discriminate.
  - subst r. split; [|split].
    + split; [discriminate|]. intros (resp & body & [=] & _).
    + split; [intros [_ [=]]|]. intros (resp & [=] & _).
    + discriminate.
Qed.

(** ** Names and paths *)

Lemma json_no_straddle (stem : string) :
  stem <> EmptyString ->
  String.prefix ".json" (stem +:+ ".json") = true -> String.prefix ".json" stem = true.
Proof.
  intros Hne H.
  destruct stem as [|c1 stem]; [contradiction|].
  rewrite app_cons in H. apply prefix_cons in H as [<- H].
  destruct stem as [|c2 stem]; [apply prefix_cons in H as [[=] _]|].
  rewrite app_cons in H. apply prefix_cons in H as [<- H].
  destruct stem as [|c3 stem]; [apply prefix_cons in H as [[=] _]|].
  rewrite app_cons in H. apply prefix_cons in H as [<- H].
  destruct stem as [|c4 stem]; [apply prefix_cons in H as [[=] _]|].
  rewrite app_cons in H. apply prefix_cons in H as [<- H].
  destruct stem as [|c5 stem]; [apply prefix_cons in H as [[=] _]|].
  rewrite app_cons in H. apply prefix_cons in H as [<- H].
  repeat (apply prefix_cons; split; [reflexivity|]). apply prefix_empty.
Qed.

Lemma replace_json_suffix (stem : string) :
  JS.includes ".json" stem = false ->
  JS.replace ".json" EmptyString (stem +:+ ".json") = stem.
Proof.
  induction stem as [|ch stem IH]; intros Hno; [reflexivity|].
  cbn [JS.includes] in Hno. apply orb_false_iff in Hno as [Hp Hrest].
  rewrite app_cons. cbn [JS.replace].
  destruct (String.prefix ".json" (String ch (stem +:+ ".json"))) eqn:Hp'.
  - rewrite <- app_cons in Hp'. apply json_no_straddle in Hp'; [congruence|discriminate].
  - rewrite (IH Hrest). reflexivity.
Qed.

(** A source file whose name is a stem without [.json] inside, followed by
    [.json], is taken up by [main], publishes under its stem, and its
    manifest has the name of the source file; so two such source files
    publish under different names. *)
Theorem source_publishes_under_its_stem (stem : string) :
  JS.includes ".json" stem = false ->
  JS.endsWith ".json" (stem +:+ ".json") = true
  /\ sourceHash_of (stem +:+ ".json") = stem
  /\ Fs.manifest_path (sourceHash_of (stem +:+ ".json"))
     = path_join FEEDS_DIR (stem +:+ ".json")
  /\ (forall other, JS.includes ".json" other = false ->
        sourceHash_of (stem +:+ ".json") = sourceHash_of (other +:+ ".json") ->
        stem = other).
Proof.
  intros Hno. unfold sourceHash_of.
  split; [apply endsWith_app|]. rewrite (replace_json_suffix _ Hno).
  split; [reflexivity|]. split; [reflexivity|].
  intros other Hother. rewrite (replace_json_suffix _ Hother). auto.
Qed.

(** The stem must be free of [.json]: the first occurrence is the one
    removed. *)
Lemma source_publishes_under_its_stem_witness :
  sourceHash_of "news.json" = "news"
  /\ sourceHash_of "a.json.b.json" = "a.b.json".
Proof.
  split; [|reflexivity].
  exact (proj1 (proj2 (source_publishes_under_its_stem "news" eq_refl))).
Defined.

Lemma item_path_inj (s1 s2 k1 k2 : string) :
  String.length k1 = String.length k2 ->
  "items/" +:+ s1 +:+ "/" +:+ k1 +:+ ".json" = "items/" +:+ s2 +:+ "/" +:+ k2 +:+ ".json" ->
  s1 = s2 /\ k1 = k2.
Proof.
  intros Hlen H.
  apply app_inj_length in H as [_ H]; [|reflexivity].
  assert (Hs : String.length s1 = String.length s2).
  { apply (f_equal String.length) in H. rewrite !length_app_str in H.
    cbn [String.length] in H. lia. }
  apply app_inj_length in H as [-> H]; [|exact Hs]. split; [reflexivity|].
  apply app_inj_length in H as [_ H]; [|reflexivity].
  apply app_inv_tail_str in H. exact H.
Qed.

(** Two sources have the same item directory only if they have the same
    name, or the two names that [path.join] drops. *)
Lemma item_prefix_cases (s : string) :
  (s = "" /\ item_prefix s = "items/") \/ (s = "." /\ item_prefix s = "items/")
  \/ (s = ".." /\ item_prefix s = "")
  \/ item_prefix s = "items/" +:+ s +:+ "/".
Proof.
  unfold item_prefix.
  destruct (String.eqb s "") eqn:H0; [apply String.eqb_eq in H0; auto|].
  destruct (String.eqb s ".") eqn:H1; [apply String.eqb_eq in H1; auto|].
  destruct (String.eqb s "..") eqn:H2; [apply String.eqb_eq in H2; auto|].
  auto.
Qed.

Lemma item_prefix_inj (s1 s2 : string) :
  item_prefix s1 = item_prefix s2 ->
  s1 = s2 \/ (s1 = "" /\ s2 = ".") \/ (s1 = "." /\ s2 = "").
Proof.
  destruct (item_prefix_cases s1) as [[-> ->]|[[-> ->]|[[-> ->]| ->]]];
    destruct (item_prefix_cases s2) as [[-> ->]|[[-> ->]|[[-> ->]| ->]]];
    intros H; auto; try discriminate.
  - injection H as H. destruct s2; discriminate.
  - injection H as H. destruct s2; discriminate.
  - injection H as H. destruct s1; discriminate.
  - injection H as H. destruct s1; discriminate.
  - injection H as H. left. apply (app_inv_tail_str s1 s2 "/"). exact H.
Qed.

(** Where the item documents of the sources meet.  In the bucket two items
    are stored under the same key only if they belong to the same source
    and have the same hash, whatever the names of the sources.  In the
    file system two items are stored at the same path only if they have
    the same hash and belong to the same source, or to the two sources
    that publish under the empty name and under [.] (the source files
    [.json] and [..json]): [path.join] drops both names, so the items of
    both sources are files of [items] itself and one key has one path for
    both.  No item document is a manifest or a source configuration. *)
Theorem item_paths_disjoint (source1 source2 id1 id2 : string) :
  (Fs.item_path source1 (getHash id1) = Fs.item_path source2 (getHash id2) ->
   getHash id1 = getHash id2
   /\ (source1 = source2
       \/ (source1 = "" /\ source2 = ".") \/ (source1 = "." /\ source2 = "")))
  /\ (forall key, Fs.item_path "" key = "items/" +:+ key +:+ ".json"
                  /\ Fs.item_path "." key = "items/" +:+ key +:+ ".json"
                  /\ Fs.item_path ".." key = key +:+ ".json"
                  /\ Fs.item_path (sourceHash_of "..json") key
                     = Fs.item_path (sourceHash_of ".json") key)
  /\ (JS.endsWith ".json" ".json" = true /\ JS.endsWith ".json" "..json" = true
      /\ sourceHash_of ".json" = "" /\ sourceHash_of "..json" = ".")
  /\ (R2.item_key source1 (getHash id1) = R2.item_key source2 (getHash id2) ->
      source1 = source2 /\ getHash id1 = getHash id2)
  /\ (forall file, Fs.item_path source1 (getHash id1) <> Fs.manifest_path file
                   /\ Fs.item_path source1 (getHash id1) <> Fs.source_path file
                   /\ R2.item_key source1 (getHash id1) <> R2.manifest_key file).
Proof.
  split; [|split; [|split; [repeat split; reflexivity|split]]].
  - rewrite !item_path_shape. intros H.
    assert (Hlen : String.length (item_prefix source1) = String.length (item_prefix source2)).
    { apply (f_equal String.length) in H. rewrite !length_app_str in H.
      change (String.length (getHash id1)) with 12%nat in H.
      change (String.length (getHash id2)) with 12%nat in H. lia. }
    apply app_inj_length in H as [Hp H]; [|exact Hlen].
    apply app_inv_tail_str in H. split; [exact H|].
    apply item_prefix_inj, Hp.
  - intros key. rewrite !item_path_shape. repeat split; reflexivity.
  - unfold R2.item_key. apply item_path_inj. reflexivity.
  - intros file. split; [|split].
    + apply not_eq_sym, hash_path_not_manifest.
    + apply not_eq_sym, hash_path_not_source.
    + discriminate.
Qed.

(** ** [normalizeUrl] *)

(** URLs that differ in a leading [www.] of the host, in the scheme or in
    the fragment have the same normal form: when the lower-cased host of
    one is [www.] followed by the lower-cased host of the other, which
    does not itself begin with [www.], and path and query agree.  Only one
    [www.] is removed.  The four hosts [reddit.com], [www.reddit.com],
    [old.reddit.com] and [www.old.reddit.com] all come out as
    [reddit.com]. *)
Theorem normalizeUrl_host_aliases (b : Builtins) (url1 url2 : string) (u1 u2 : URL) :
  URL_parse b url1 = Normal u1 -> URL_parse b url2 = Normal u2 ->
  pathname u1 = pathname u2 -> search u1 = search u2 ->
  (String.prefix "www." (toLowerCase b (hostname u2)) = false ->
   toLowerCase b (hostname u1) = "www." +:+ toLowerCase b (hostname u2) ->
   normalizeUrl b url1 = normalizeUrl b url2)
  /\ (In (toLowerCase b (hostname u1))
         ["reddit.com"; "www.reddit.com"; "old.reddit.com"; "www.old.reddit.com"] ->
      exists path, normalizeUrl b url1 = "reddit.com" +:+ path +:+ search u1).
Proof.
  intros H1 H2 Hpath Hsearch. unfold normalizeUrl, JS.startsWith.
  rewrite H1, H2, Hpath, Hsearch. split.
  - intros Hno Hwww. rewrite Hwww, prefix_app, Hno.
    change (JS.drop 4 ("www." +:+ toLowerCase b (hostname u2)))
      with (JS.drop (String.length "www.") ("www." +:+ toLowerCase b (hostname u2))).
    rewrite drop_app_length. reflexivity.
  - intros Hin. cbn [In] in Hin.
    destruct Hin as [<-|[<-|[<-|[<-|[]]]]]; cbn; eauto.
Qed.

Lemma normalizeUrl_host_aliases_witness :
  normalizeUrl example_builtins "http://WWW.Example.org/feed?x=1#top"
  = normalizeUrl example_builtins "https://example.org/feed?x=1".
Proof.
  refine (proj1 (normalizeUrl_host_aliases example_builtins _ _ _ _ _ _ _ _) _ _);
    reflexivity.
Defined.

(** A trailing slash of the path makes no difference, and neither do the
    scheme and the fragment: two URLs with the same host and query, one
    with the path of the other followed by one slash, have the same normal
    form.  Exactly one slash is removed. *)
Theorem normalizeUrl_trailing_slash (b : Builtins) (url1 url2 : string) (u1 u2 : URL) :
  URL_parse b url1 = Normal u1 -> URL_parse b url2 = Normal u2 ->
  hostname u1 = hostname u2 -> search u1 = search u2 ->
  pathname u1 = pathname u2 +:+ "/" ->
  JS.endsWith "/" (pathname u2) = false ->
  normalizeUrl b url1 = normalizeUrl b url2.
Proof.
  intros H1 H2 Hhost Hsearch Hpath Hno. unfold normalizeUrl.
  rewrite H1, H2, Hhost, Hsearch, Hpath, Hno, endsWith_app, slice_last_app.
  reflexivity.
Qed.

Lemma normalizeUrl_trailing_slash_witness :
  normalizeUrl example_builtins "https://example.org/a/b/"
  = normalizeUrl example_builtins "https://example.org/a/b"
  /\ normalizeUrl example_builtins "https://example.org/a/b" = "example.org/a/b"
  /\ normalizeUrl example_builtins "https://example.org/a//" = "example.org/a/".
Proof.
  split; [|split; reflexivity].
  refine (normalizeUrl_trailing_slash example_builtins _ _ _ _ _ _ _ _ _ _);
    reflexivity.
Defined.

(** ** The item loop of the file-system script *)

Lemma first_with_key_found (key : string) (items : list RawItem) (i : nat)
    (item : RawItem) (id : string) :
  In item items -> identifier item = Some id -> getHash id = key ->
  is_Some (first_with_key key i items).
Proof.
  revert i. induction items as [|x rest IH]; intros i Hin Hid Hkey; [destruct Hin|].
  cbn [first_with_key]. destruct Hin as [->|Hin].
  - rewrite Hid, Hkey, String.eqb_refl. eauto.
  - destruct (identifier x) as [idx|]; [destruct (String.eqb (getHash idx) key)|]; eauto.
Qed.

Lemma first_with_key_sound (key : string) (items : list RawItem) (i j : nat)
    (item : RawItem) :
  first_with_key key i items = Some (j, item) ->
  exists id, identifier item = Some id /\ getHash id = key
             /\ (i <= j)%nat /\ items !! (j - i)%nat = Some item.
Proof.
  revert i. induction items as [|x rest IH]; intros i H; [discriminate|].
  cbn [first_with_key] in H.
  assert (Hrest : first_with_key key (S i) rest = Some (j, item) ->
                  exists id, identifier item = Some id /\ getHash id = key
                             /\ (i <= j)%nat /\ (x :: rest) !! (j - i)%nat = Some item).
  { intros Hr. destruct (IH _ Hr) as (id & Hid & Hk & Hle & Hl).
    exists id. repeat split; auto; [lia|].
    replace (j - i)%nat with (S (j - S i)) by lia. exact Hl. }
  destruct (identifier x) as [idx|] eqn:Hidx; [|auto].
  destruct (String.eqb (getHash idx) key) eqn:Hk; [|auto].
  injection H as <- <-. apply String.eqb_eq in Hk.
  exists idx. repeat split; auto. rewrite Nat.sub_diag. reflexivity.
Qed.

(** What the item loop leaves at a path that held nothing.  When the loop
    runs to its end, the path of a key holds the document of the first
    item of the feed that has this key, and still nothing when no item has
    it: among several entries of a feed with one identifier the first
    wins, as among several cycles.  (A path that held a file keeps it, see
    [Fs_sync_items_spec].) *)
Lemma Fs_sync_items_first_writer (w : World) (file sourceHash : string)
    (items : list RawItem) :
  forall (i : nat) (manifest manifest' : list ManifestEntry) (st st1 : Store) (key : string),
    Fs.sync_items w file sourceHash i items manifest st = (Normal manifest', st1) ->
    files st !! Fs.item_path sourceHash key = None ->
    files st1 !! Fs.item_path sourceHash key
    = Fs_document w file sourceHash <$> first_with_key key i items.
Proof.
  induction items as [|item rest IH]; intros i manifest manifest' st st1 key.
  - intros [= <- <-] Hnone. exact Hnone.
  - cbn [Fs.sync_items first_with_key]. unfold bind at 1. fold (identifier item).
    destruct (identifier item) as [id|] eqn:Hid; cbn [getHash_of ret throw];
      [|discriminate].
    unfold bind at 1, existsSync.
    case_bool_decide as Hex; cbn [negb].
    + unfold bind at 1, ret. intros Hrest Hnone.
      destruct (String.eqb (getHash id) key) eqn:Hk.
      * apply String.eqb_eq in Hk. subst key. rewrite Hnone in Hex.
        destruct Hex as [? [=]].
      * eapply IH; eauto.
    + unfold bind at 1, writeFileSync.
      destruct (write_fails w (Fs.item_path sourceHash (getHash id))); [discriminate|].
      intros Hrest Hnone.
      destruct (String.eqb (getHash id) key) eqn:Hk.
      * apply String.eqb_eq in Hk. subst key.
        destruct (Fs_sync_items_spec _ _ _ _ _ _ _ _ _ Hrest) as (_ & _ & Hkept & _).
        erewrite Hkept; [|cbn [files]; apply lookup_insert_eq].
        unfold Fs_document. cbn [fmap option_fmap option_map fst snd].
        rewrite Hid. reflexivity.
      * eapply IH; [exact Hrest|]. cbn [files].
        rewrite lookup_insert_ne; [exact Hnone|].
        intros Heq. apply item_path_inj_key in Heq. apply String.eqb_neq in Hk.
        contradiction.
Qed.

(** First writer wins.  After an item loop that ran to its end, an item
    path of the source that held nothing before holds the
    processed form of the first entry of the feed with that key (with the
    clock reading of its own turn), whatever later entries with the same
    identifier say; a path that held a file holds it unchanged. *)
Theorem Fs_first_writer_wins (w : World) (file sourceHash : string)
    (items : list RawItem) (manifest manifest' : list ManifestEntry)
    (st st1 : Store) (key : string) :
  Fs.sync_items w file sourceHash 0 items manifest st = (Normal manifest', st1) ->
  files st1 !! Fs.item_path sourceHash key
  = match files st !! Fs.item_path sourceHash key with
    | Some doc => Some doc
    | None => Fs_document w file sourceHash <$> first_with_key key 0 items
    end.
Proof.
  intros H. destruct (files st !! Fs.item_path sourceHash key) as [doc|] eqn:Hst.
  - destruct (Fs_sync_items_spec _ _ _ _ _ _ _ _ _ H) as (_ & _ & Hkept & _). auto.
  - eapply Fs_sync_items_first_writer; eauto.
Qed.

(** ** A whole cycle of the file-system script *)

(** The store that a completed cycle leaves, as the store after the item
    loop with the manifest and the source configuration written over it. *)
Lemma Fs_cycle_completed (w : World) (file sourceHash : string) (src : Source)
    (st st' : Store) (r : FetchResult) :
  fetchFeed w (base64_decode w (u src)) (etag src) (lastModified src) st = (Normal r, st) ->
  modified r = true ->
  Fs.cycle w file sourceHash src st = (Normal tt, st') ->
  exists items st1,
    parseString w (default EmptyString (xml r)) = Normal items
    /\ Fs.sync_items w file sourceHash 0 items [] st = (Normal (map manifest_entry items), st1)
    /\ write_fails w (Fs.manifest_path sourceHash) = false
    /\ write_fails w (Fs.source_path file) = false
    /\ st' = {| files :=
                  <[Fs.source_path file :=
                      SourceDoc {| u := u src;
                                   etag := Some (JS.or_str (res_etag r) EmptyString);
                                   lastModified :=
                                     Some (JS.or_str (res_lastModified r) EmptyString) |}]>
                    (<[Fs.manifest_path sourceHash := ManifestDoc (map manifest_entry items)]>
                       (files st1));
                bucket := bucket st1 |}.
Proof.
  intros Hr Hm Hc.
  destruct (parseString w (default EmptyString (xml r))) as [items|message] eqn:Hparse.
  2:{ unfold Fs.cycle in Hc. unfold bind at 1 in Hc. rewrite Hr, Hm in Hc.
      unfold bind at 1, lift in Hc. rewrite Hparse in Hc. discriminate. }
  rewrite (Fs_cycle_unfold _ _ _ _ _ _ _ Hr Hm Hparse) in Hc.
  unfold bind at 1 in Hc.
  destruct (Fs.sync_items w file sourceHash 0 items [] st) as [[manifest|message] st1] eqn:Hs;
    [|discriminate].
  destruct (Fs_sync_items_spec _ _ _ _ _ _ _ _ _ Hs) as (_ & _ & _ & Hman).
  destruct (Hman manifest eq_refl) as [-> _]. cbn [app] in *.
  unfold bind at 1, writeFileSync at 1 in Hc.
  destruct (write_fails w (Fs.manifest_path sourceHash)) eqn:Hw1; [discriminate|].
  unfold writeFileSync in Hc. cbn [files bucket] in Hc.
  destruct (write_fails w (Fs.source_path file)) eqn:Hw2; [discriminate|].
  injection Hc as <-. exists items, st1. auto.
Qed.

(** After a completed cycle, the manifest on disk never points to a
    missing item: for every entry of the manifest there is a file at the
    item path of its hash. *)
Theorem Fs_manifest_entries_have_files (w : World) (file sourceHash : string)
    (src : Source) (st st' : Store) (r : FetchResult) :
  fetchFeed w (base64_decode w (u src)) (etag src) (lastModified src) st = (Normal r, st) ->
  modified r = true ->
  Fs.cycle w file sourceHash src st = (Normal tt, st') ->
  exists manifest,
    files st' !! Fs.manifest_path sourceHash = Some (ManifestDoc manifest)
    /\ forall entry, In entry manifest ->
                     is_Some (files st' !! Fs.item_path sourceHash (h entry)).
Proof.
  intros Hr Hm Hc.
  destruct (Fs_cycle_completed _ _ _ _ _ _ _ Hr Hm Hc)
    as (items & st1 & Hparse & Hs & _ & _ & ->).
  exists (map manifest_entry items). cbn [files]. split.
  - rewrite lookup_insert_ne by (apply not_eq_sym, source_path_not_manifest).
    apply lookup_insert_eq.
  - intros entry Hin. apply in_map_iff in Hin as (item & <- & Hin).
    destruct (Fs_sync_items_spec _ _ _ _ _ _ _ _ _ Hs) as (_ & _ & _ & Hman).
    destruct (Hman _ eq_refl) as [_ Hids]. rewrite Forall_forall in Hids.
    destruct (Hids item) as [id Hid]; [apply list_elem_of_In; exact Hin|].
    unfold manifest_entry, entry_of. rewrite Hid. cbn [h]. change (default EmptyString (Some id)) with id.
    rewrite lookup_insert_ne by apply hash_path_not_source.
    rewrite lookup_insert_ne by apply hash_path_not_manifest.
    destruct (files st !! Fs.item_path sourceHash (getHash id)) as [doc|] eqn:Hst.
    + destruct (Fs_sync_items_spec _ _ _ _ _ _ _ _ _ Hs) as (_ & _ & Hkept & _).
      rewrite (Hkept _ _ Hst). eauto.
    + rewrite (Fs_sync_items_first_writer _ _ _ _ _ _ _ _ _ _ Hs Hst).
      destruct (first_with_key_found (getHash id) items 0 item id Hin Hid eq_refl)
        as [found ->]. cbn. eauto.
Qed.

Lemma Fs_first_writer_wins_witness :
  files (snd (Fs.sync_items world_old "news.json" "news" 0 duplicate_items []
                example_store))
    !! Fs.item_path "news" (getHash "urn:post:1")
  = Some (Fs_document world_old "news.json" "news" (0%nat, example_item "Old title" nov_1)).
Proof.
  rewrite (Fs_first_writer_wins world_old "news.json" "news" duplicate_items []
             (map manifest_entry duplicate_items) example_store
             (snd (Fs.sync_items world_old "news.json" "news" 0 duplicate_items []
                     example_store))
             (getHash "urn:post:1")); by_evaluation.
Defined.

Lemma Fs_manifest_entries_have_files_witness :
  exists manifest,
    files (snd (Fs.cycle (example_world (reply_200 None None) two_items)
                  "news.json" "news" example_source example_store))
      !! Fs.manifest_path "news" = Some (ManifestDoc manifest)
    /\ forall entry, In entry manifest ->
         is_Some (files (snd (Fs.cycle (example_world (reply_200 None None) two_items)
                                "news.json" "news" example_source example_store))
                    !! Fs.item_path "news" (h entry)).
Proof.
  apply (Fs_manifest_entries_have_files
           (example_world (reply_200 None None) two_items) "news.json" "news"
           example_source example_store _
           {| modified := true; xml := Some "<rss/>"; res_etag := None;
              res_lastModified := None; error := None |}).
  - reflexivity.
  - reflexivity.
  - by_evaluation.
Defined.

Lemma uploadToR2_cases (w : World) (key : string) (data : Doc) (st : Store) :
  uploadToR2 w key data st
  = (Normal tt,
     if put_fails w key then st
     else {| files := files st; bucket := <[key := data]> (bucket st) |}).
Proof. unfold uploadToR2, try_catch, ret. destruct (put_fails w key); reflexivity. Qed.

(** The item loop of the object-storage script uploads under item keys
    only. *)
Lemma R2_sync_items_bucket_frame (w : World) (file sourceHash : string)
    (items : list RawItem) :
  forall (i : nat) (manifest : list ManifestEntry) (st st1 : Store)
         (c : completion (list ManifestEntry)) (key : string),
    R2.sync_items w file sourceHash i items manifest st = (c, st1) ->
    String.prefix "items/" key = false ->
    bucket st1 !! key = bucket st !! key.
Proof.
  induction items as [|x rest IH]; intros i manifest st st1 c key.
  - intros [= <- <-]. reflexivity.
  - cbn [R2.sync_items]. unfold bind at 1.
    destruct (JS.or (raw_guid x) (raw_link x)) as [idx|]; cbn [getHash_of ret throw];
      [|intros [= <- <-]; reflexivity].
    unfold bind at 1. rewrite uploadToR2_cases. intros Hrest Hkey.
    rewrite (IH _ _ _ _ _ _ Hrest Hkey).
    destruct (put_fails w _); [reflexivity|]. cbn [bucket].
    apply lookup_insert_ne. intros <-. unfold R2.item_key in Hkey.
    rewrite prefix_app in Hkey. discriminate.
Qed.

(** An item of the feed with neither guid nor link stops the cycle: the
    hash cannot be computed, the error leaves the loop, and neither the
    manifest nor the validators of the source are written, in either
    script (items before it in the feed have been handled by then): the
    manifest file and the source file of the file-system script are as
    they were, and so are the local files and the manifest object in the
    bucket of the object-storage script. *)
Theorem item_without_identifier_aborts_cycle (w : World) (file sourceHash : string)
    (src : Source) (st : Store) (r : FetchResult) (items : list RawItem)
    (item : RawItem) :
  fetchFeed w (base64_decode w (u src)) (etag src) (lastModified src) st = (Normal r, st) ->
  modified r = true ->
  parseString w (default EmptyString (xml r)) = Normal items ->
  In item items -> identifier item = None ->
  (exists message st',
      Fs.cycle w file sourceHash src st = (Throw message, st')
      /\ files st' !! Fs.manifest_path sourceHash = files st !! Fs.manifest_path sourceHash
      /\ files st' !! Fs.source_path file = files st !! Fs.source_path file)
  /\ (exists message st',
        R2.cycle w file sourceHash src st = (Throw message, st')
        /\ files st' = files st
        /\ bucket st' !! R2.manifest_key sourceHash
           = bucket st !! R2.manifest_key sourceHash).
Proof.
  intros Hr Hm Hparse Hin Hnone.
  assert (Hbad : ~ Forall (fun item => is_Some (identifier item)) items).
  { intros Hall. rewrite Forall_forall in Hall.
    destruct (Hall item) as [id Hid]; [apply list_elem_of_In; exact Hin|]. congruence. }
  split.
  - rewrite (Fs_cycle_unfold _ _ _ _ _ _ _ Hr Hm Hparse). unfold bind at 1.
    destruct (Fs.sync_items w file sourceHash 0 items [] st) as [[manifest|message] st1] eqn:Hs;
      destruct (Fs_sync_items_spec _ _ _ _ _ _ _ _ _ Hs) as (_ & Hframe & _ & Hman).
    + destruct (Hman _ eq_refl) as [_ Hall]. contradiction.
    + exists message, st1. split; [reflexivity|].
      split; apply Hframe; intros id;
        [apply hash_path_not_manifest | apply hash_path_not_source].
  - unfold R2.cycle. unfold bind at 1. rewrite Hr, Hm.
    unfold bind at 1, lift. rewrite Hparse. unfold bind at 1.
    destruct (R2.sync_items w file sourceHash 0 items [] st) as [[manifest|message] st1] eqn:Hs;
      destruct (R2_sync_items_spec _ _ _ _ _ _ _ _ _ Hs) as (Hfiles & Hman).
    + destruct (Hman _ eq_refl) as [_ Hall]. contradiction.
    + exists message, st1. split; [reflexivity|]. split; [exact Hfiles|].
      apply (R2_sync_items_bucket_frame _ _ _ _ _ _ _ _ _ _ Hs). reflexivity.
Qed.

(** The example feed with a nameless second item, over a store and a
    bucket that hold a manifest each: both manifests stay, and so do the
    validators. *)
Lemma item_without_identifier_aborts_cycle_witness :
  validators
    (snd (Fs.process_source (example_world (reply_200 (Some "v2") None) nameless_feed)
            "news.json" store_with_manifest)) "news.json"
  = validators store_with_manifest "news.json"
  /\ files (snd (Fs.process_source
                   (example_world (reply_200 (Some "v2") None) nameless_feed)
                   "news.json" store_with_manifest))
       !! Fs.manifest_path "news" = Some (ManifestDoc stale_manifest)
  /\ bucket (snd (R2.process_source
                    (example_world (reply_200 (Some "v2") None) nameless_feed)
                    "news.json" store_with_bucket_manifest))
       !! R2.manifest_key "news" = Some (ManifestDoc stale_manifest)
  /\ validators
       (snd (R2.process_source (example_world (reply_200 (Some "v2") None) nameless_feed)
               "news.json" store_with_bucket_manifest)) "news.json"
     = validators store_with_bucket_manifest "news.json".
Proof.
  pose proof (item_without_identifier_aborts_cycle
                (example_world (reply_200 (Some "v2") None) nameless_feed)
                "news.json" "news" example_source store_with_bucket_manifest
                {| modified := true; xml := Some "<rss/>"; res_etag := Some "v2";
                   res_lastModified := None; error := None |}
                nameless_feed nameless_item eq_refl eq_refl eq_refl
                (or_intror (or_introl eq_refl)) eq_refl)
    as [_ (message & st' & Hc & Hfiles & Hbucket)].
  split; [by_evaluation|]. split; [by_evaluation|]. split; [|by_evaluation].
  unfold R2.process_source, bind, readSource, try_catch, ret.
  change (sourceHash_of "news.json") with "news".
  change (files store_with_bucket_manifest !! Fs.source_path "news.json")
    with (Some (SourceDoc example_source)).
  cbv iota beta. rewrite Hc. cbn [snd]. rewrite Hbucket. by_evaluation.
Defined.

(** ** Running a cycle again *)

Lemma Fs_sync_items_all_present (w : World) (file sourceHash : string)
    (items : list RawItem) :
  forall (i : nat) (manifest : list ManifestEntry) (st : Store),
    (forall item, In item items ->
       exists id, identifier item = Some id
                  /\ is_Some (files st !! Fs.item_path sourceHash (getHash id))) ->
    Fs.sync_items w file sourceHash i items manifest st
    = (Normal (manifest ++ map manifest_entry items)%list, st).
Proof.
  induction items as [|item rest IH]; intros i manifest st Hall.
  - cbn. rewrite app_nil_r. reflexivity.
  - destruct (Hall item (or_introl eq_refl)) as (id & Hid & Hfile).
    cbn [Fs.sync_items]. unfold bind at 1. fold (identifier item). rewrite Hid.
    cbn [getHash_of ret]. unfold bind at 1, existsSync.
    rewrite bool_decide_eq_true_2 by exact Hfile. cbn [negb].
    unfold bind at 1, ret. rewrite IH by (intros x Hx; apply Hall; right; exact Hx).
    rewrite <- app_assoc. cbn [map app]. unfold manifest_entry. rewrite Hid.
    reflexivity.
Qed.

Lemma Fs_items_present_after_loop (w : World) (file sourceHash : string)
    (items : list RawItem) (manifest manifest' : list ManifestEntry) (st st1 : Store) :
  Fs.sync_items w file sourceHash 0 items manifest st = (Normal manifest', st1) ->
  forall item, In item items ->
    exists id, identifier item = Some id
               /\ is_Some (files st1 !! Fs.item_path sourceHash (getHash id)).
Proof.
  intros Hs item Hin.
  destruct (Fs_sync_items_spec _ _ _ _ _ _ _ _ _ Hs) as (_ & _ & Hkept & Hman).
  destruct (Hman _ eq_refl) as [_ Hids]. rewrite Forall_forall in Hids.
  destruct (Hids item) as [id Hid]; [apply list_elem_of_In; exact Hin|].
  exists id. split; [exact Hid|].
  destruct (files st !! Fs.item_path sourceHash (getHash id)) as [doc|] eqn:Hst.
  - rewrite (Hkept _ _ Hst). eauto.
  - rewrite (Fs_sync_items_first_writer _ _ _ _ _ _ _ _ _ _ Hs Hst).
    destruct (first_with_key_found (getHash id) items 0 item id Hin Hid eq_refl)
      as [found ->]. cbn. eauto.
Qed.

(** Running the cycle of a source again on an unchanged feed changes
    nothing.  After a cycle that ran to its end, a second cycle in which
    the server again sends the feed (the same items, the same caching
    headers) and the manifest and the source configuration can be written
    leaves the store exactly as the first cycle left it: no item file is
    written again, and manifest and configuration are rewritten with what
    they hold. *)
Theorem Fs_cycle_again_changes_nothing (w w2 : World) (file sourceHash : string)
    (src src1 : Source) (st st1 : Store) (r r2 : FetchResult) (items : list RawItem) :
  fetchFeed w (base64_decode w (u src)) (etag src) (lastModified src) st = (Normal r, st) ->
  modified r = true ->
  parseString w (default EmptyString (xml r)) = Normal items ->
  Fs.cycle w file sourceHash src st = (Normal tt, st1) ->
  files st1 !! Fs.source_path file = Some (SourceDoc src1) ->
  fetchFeed w2 (base64_decode w2 (u src1)) (etag src1) (lastModified src1) st1
  = (Normal r2, st1) ->
  modified r2 = true ->
  parseString w2 (default EmptyString (xml r2)) = Normal items ->
  res_etag r2 = res_etag r -> res_lastModified r2 = res_lastModified r ->
  write_fails w2 (Fs.manifest_path sourceHash) = false ->
  write_fails w2 (Fs.source_path file) = false ->
  Fs.cycle w2 file sourceHash src1 st1 = (Normal tt, st1).
Proof.
  intros Hr Hm Hparse Hc Hsrc1 Hr2 Hm2 Hparse2 Hetag Hlm Hw1 Hw2.
  destruct (Fs_cycle_completed _ _ _ _ _ _ _ Hr Hm Hc)
    as (items' & st0 & Hparse' & Hs & _ & _ & Hst1).
  assert (items' = items) as -> by congruence.
  pose proof (Fs_items_present_after_loop _ _ _ _ _ _ _ _ Hs) as Hpresent.
  rewrite (Fs_cycle_unfold _ _ _ _ _ _ _ Hr2 Hm2 Hparse2). unfold bind at 1.
  rewrite Fs_sync_items_all_present.
  2:{ intros item Hin. destruct (Hpresent item Hin) as (id & Hid & Hfile).
      exists id. split; [exact Hid|]. subst st1. cbn [files].
      rewrite lookup_insert_ne by apply hash_path_not_source.
      rewrite lookup_insert_ne by apply hash_path_not_manifest. exact Hfile. }
  cbn [app]. unfold bind at 1. rewrite writeFileSync_ok by exact Hw1.
  rewrite writeFileSync_ok by exact Hw2. cbn [files bucket].
  f_equal. subst st1. cbn [files bucket] in *.
  rewrite lookup_insert_eq in Hsrc1. injection Hsrc1 as <-. cbn [u].
  rewrite Hetag, Hlm. f_equal.
  rewrite (insert_id (<[Fs.source_path file:=_]> _) (Fs.manifest_path sourceHash)
             (ManifestDoc (map manifest_entry items))).
  - apply insert_id, lookup_insert_eq.
  - rewrite lookup_insert_ne by (apply not_eq_sym, source_path_not_manifest).
    apply lookup_insert_eq.
Qed.



Lemma Fs_cycle_again_changes_nothing_witness :
  Fs.cycle world_old "news.json" "news"
    {| u := u example_source; etag := Some "v2"; lastModified := Some EmptyString |}
    (snd (Fs.cycle world_old "news.json" "news" example_source example_store))
  = (Normal tt, snd (Fs.cycle world_old "news.json" "news" example_source example_store)).
Proof.
  apply (Fs_cycle_again_changes_nothing world_old world_old "news.json" "news"
           example_source _ example_store _
           {| modified := true; xml := Some "<rss/>"; res_etag := Some "v2";
              res_lastModified := None; error := None |}
           {| modified := true; xml := Some "<rss/>"; res_etag := Some "v2";
              res_lastModified := None; error := None |}
           [example_item "Old title" nov_1]); by_evaluation.
Defined.


(** ** Uploads of the object-storage script *)

Lemma item_key_inj_key (sourceHash k1 k2 : string) :
  R2.item_key sourceHash k1 = R2.item_key sourceHash k2 -> k1 = k2.
Proof.
  unfold R2.item_key. intros H.
  apply app_inj_length in H as [_ H]; [|reflexivity].
  apply app_inj_length in H as [_ H]; [|reflexivity].
  apply app_inj_length in H as [_ H]; [|reflexivity].
  apply app_inv_tail_str in H. exact H.
Qed.

(** When every upload is rejected and every item has an identifier, the
    item loop still runs to its end, with the full manifest, and the store
    is as before. *)
Lemma R2_sync_items_rejected (w : World) (file sourceHash : string)
    (items : list RawItem) :
  (forall key, put_fails w key = true) ->
  Forall (fun item => is_Some (identifier item)) items ->
  forall (i : nat) (manifest : list ManifestEntry) (st : Store),
    R2.sync_items w file sourceHash i items manifest st
    = (Normal (manifest ++ map manifest_entry items)%list, st).
Proof.
  intros Hrej. induction 1 as [|item rest [id Hid] _ IH]; intros i manifest st.
  - cbn. rewrite app_nil_r. reflexivity.
  - cbn [R2.sync_items]. unfold bind at 1. fold (identifier item). rewrite Hid.
    cbn [getHash_of ret]. unfold bind at 1. rewrite uploadToR2_cases, Hrej, IH.
    rewrite <- app_assoc. cbn [map app]. unfold manifest_entry. rewrite Hid.
    reflexivity.
Qed.

(** When no upload is rejected, after an item loop that ran to its end
    the key of every item of the feed holds the processed form of an item
    of the feed with that key, and a key that no item has is as before. *)
Lemma R2_sync_items_uploaded (w : World) (file sourceHash : string)
    (items : list RawItem) :
  (forall key, put_fails w key = false) ->
  forall (i : nat) (manifest manifest' : list ManifestEntry) (st st1 : Store)
         (key : string),
    R2.sync_items w file sourceHash i items manifest st = (Normal manifest', st1) ->
    match first_with_key key i items with
    | None => bucket st1 !! R2.item_key sourceHash key
              = bucket st !! R2.item_key sourceHash key
    | Some _ =>
        exists j item id,
          (i <= j)%nat /\ items !! (j - i)%nat = Some item
          /\ identifier item = Some id /\ getHash id = key
          /\ bucket st1 !! R2.item_key sourceHash key
             = Some (R2_document w file sourceHash (j, item))
    end.
Proof.
  intros Hok. induction items as [|x rest IH]; intros i manifest manifest' st st1 key.
  - intros [= <- <-]. reflexivity.
  - cbn [R2.sync_items first_with_key]. unfold bind at 1. fold (identifier x).
    destruct (identifier x) as [idx|] eqn:Hidx; cbn [getHash_of ret throw]; [|discriminate].
    unfold bind at 1. rewrite uploadToR2_cases, Hok. intros Hrest.
    specialize (IH _ _ _ _ _ key Hrest). cbn [bucket] in IH.
    destruct (first_with_key key (S i) rest) as [found|] eqn:Hfound.
    + destruct IH as (j & item & id & Hle & Hl & Hid & Hk & Hb).
      assert (Hgoal : exists j item id,
                 (i <= j)%nat /\ (x :: rest) !! (j - i)%nat = Some item
                 /\ identifier item = Some id /\ getHash id = key
                 /\ bucket st1 !! R2.item_key sourceHash key
                    = Some (R2_document w file sourceHash (j, item))).
      { exists j, item, id. repeat split; auto; [lia|].
        replace (j - i)%nat with (S (j - S i)) by lia. exact Hl. }
      destruct (String.eqb (getHash idx) key); exact Hgoal.
    + destruct (String.eqb (getHash idx) key) eqn:Hk.
      * apply String.eqb_eq in Hk. subst key.
        exists i, x, idx. repeat split; auto.
        -- rewrite Nat.sub_diag. reflexivity.
        -- rewrite IH, lookup_insert_eq. unfold R2_document. cbn [fst snd].
           rewrite Hidx. reflexivity.
      * rewrite IH. apply lookup_insert_ne. intros Heq.
        apply item_key_inj_key in Heq. apply String.eqb_neq in Hk. contradiction.
Qed.

(** Rejected uploads do not stop the object-storage script, and they do
    not hold back the validators.  When every upload of a cycle is
    rejected (and every item has an identifier), the cycle still runs to
    its end: the bucket is as before, with neither the items nor the
    manifest of the feed, and yet the source configuration is rewritten
    with the validators of the reply, so that the next run asks the server
    only for what is newer. *)
Theorem R2_rejected_uploads_still_advance_validators (w : World)
    (file sourceHash : string) (src : Source) (st : Store) (r : FetchResult)
    (items : list RawItem) :
  fetchFeed w (base64_decode w (u src)) (etag src) (lastModified src) st = (Normal r, st) ->
  modified r = true ->
  parseString w (default EmptyString (xml r)) = Normal items ->
  Forall (fun item => is_Some (identifier item)) items ->
  (forall key, put_fails w key = true) ->
  write_fails w (Fs.source_path file) = false ->
  R2.cycle w file sourceHash src st
  = (Normal tt,
     {| files :=
          <[Fs.source_path file :=
              SourceDoc {| u := u src;
                           etag := Some (JS.or_str (res_etag r) EmptyString);
                           lastModified :=
                             Some (JS.or_str (res_lastModified r) EmptyString) |}]>
            (files st);
        bucket := bucket st |}).
Proof.
  intros Hr Hm Hparse Hids Hrej Hw.
  unfold R2.cycle. unfold bind at 1. rewrite Hr, Hm.
  unfold bind at 1, lift. rewrite Hparse. unfold bind at 1.
  rewrite (R2_sync_items_rejected w file sourceHash items Hrej Hids).
  unfold bind at 1. rewrite uploadToR2_cases, Hrej. apply writeFileSync_ok, Hw.
Qed.

(** When no upload is rejected, a cycle that ran to its end has put into
    the bucket the manifest of the feed and, for every item of the feed,
    under the key of its identifier, the processed form of an item of the
    feed with that key. *)
Theorem R2_completed_cycle_fills_bucket (w : World) (file sourceHash : string)
    (src : Source) (st st' : Store) (r : FetchResult) (items : list RawItem) :
  fetchFeed w (base64_decode w (u src)) (etag src) (lastModified src) st = (Normal r, st) ->
  modified r = true ->
  parseString w (default EmptyString (xml r)) = Normal items ->
  (forall key, put_fails w key = false) ->
  R2.cycle w file sourceHash src st = (Normal tt, st') ->
  bucket st' !! R2.manifest_key sourceHash = Some (ManifestDoc (map manifest_entry items))
  /\ forall item, In item items ->
       exists id j item',
         identifier item = Some id
         /\ items !! j = Some item'
         /\ (getHash <$> identifier item') = Some (getHash id)
         /\ bucket st' !! R2.item_key sourceHash (getHash id)
            = Some (R2_document w file sourceHash (j, item')).
Proof.
  intros Hr Hm Hparse Hok Hc.
  unfold R2.cycle in Hc. unfold bind at 1 in Hc. rewrite Hr, Hm in Hc.
  unfold bind at 1, lift in Hc. rewrite Hparse in Hc. unfold bind at 1 in Hc.
  destruct (R2.sync_items w file sourceHash 0 items [] st) as [[manifest|message] st1] eqn:Hs;
    [|discriminate].
  destruct (R2_sync_items_spec _ _ _ _ _ _ _ _ _ Hs) as (_ & Hman).
  destruct (Hman _ eq_refl) as [-> Hids]. cbn [app] in *.
  unfold bind at 1 in Hc. rewrite uploadToR2_cases, Hok in Hc.
  unfold writeFileSync in Hc. cbn [files bucket] in Hc.
  destruct (write_fails w (Fs.source_path file)); [discriminate|].
  injection Hc as <-. cbn [bucket]. split; [apply lookup_insert_eq|].
  intros item Hin. rewrite Forall_forall in Hids.
  destruct (Hids item) as [id Hid]; [apply list_elem_of_In; exact Hin|].
  pose proof (R2_sync_items_uploaded w file sourceHash items Hok _ _ _ _ _ (getHash id) Hs)
    as Hup.
  destruct (first_with_key_found (getHash id) items 0 item id Hin Hid eq_refl)
    as [found Hfound].
  rewrite Hfound in Hup. destruct Hup as (j & item' & id' & _ & Hl & Hid' & Hk & Hb).
  exists id, j, item'. split; [exact Hid|]. rewrite Nat.sub_0_r in Hl.
  split; [exact Hl|]. split; [rewrite Hid', <- Hk; reflexivity|].
  rewrite lookup_insert_ne by discriminate. exact Hb.
Qed.

Lemma R2_rejected_uploads_still_advance_validators_witness :
  bucket (snd (R2.cycle world_rejecting "news.json" "news" example_source example_store))
  = ∅
  /\ validators
       (snd (R2.cycle world_rejecting "news.json" "news" example_source example_store))
       "news.json"
     = Some (Some "v2", Some EmptyString).
Proof.
  rewrite (R2_rejected_uploads_still_advance_validators world_rejecting
             "news.json" "news" example_source example_store
             {| modified := true; xml := Some "<rss/>"; res_etag := Some "v2";
                res_lastModified := None; error := None |}
             [example_item "Old title" nov_1]).
  - split; reflexivity.
  - reflexivity.
  - reflexivity.
  - reflexivity.
  - repeat constructor. cbn. eauto.
  - reflexivity.
  - reflexivity.
Defined.

Lemma R2_completed_cycle_fills_bucket_witness :
  bucket (snd (R2.cycle world_old "news.json" "news" example_source example_store))
    !! R2.manifest_key "news"
  = Some (ManifestDoc (map manifest_entry [example_item "Old title" nov_1])).
Proof.
  refine (proj1 (R2_completed_cycle_fills_bucket world_old "news.json" "news"
                   example_source example_store _
                   {| modified := true; xml := Some "<rss/>"; res_etag := Some "v2";
                      res_lastModified := None; error := None |}
                   [example_item "Old title" nov_1] _ _ _ _ _)).
  - reflexivity.
  - reflexivity.
  - reflexivity.
  - reflexivity.
  - by_evaluation.
Defined.

(** ** A whole run *)

Lemma for_each_app {A} (body : A -> M unit) (l1 l2 : list A) (st : Store) :
  for_each body (l1 ++ l2)%list st
  = match for_each body l1 st with
    | (Normal _, st1) => for_each body l2 st1
    | (Throw message, st1) => (Throw message, st1)
    end.
Proof.
  revert st. induction l1 as [|x l1 IH]; intros st; [reflexivity|].
  cbn [app for_each]. unfold bind.
  destruct (body x st) as [[[]|message] st1]; [apply IH | reflexivity].
Qed.

Lemma for_each_completes {A} (P : Store -> Prop) (body : A -> M unit) (l : list A) :
  (forall x st, In x l -> P st -> fst (body x st) = Normal tt /\ P (snd (body x st))) ->
  forall st, P st ->
    fst (for_each body l st) = Normal tt /\ P (snd (for_each body l st)).
Proof.
  induction l as [|x l IH]; intros Hbody st HP; [auto|].
  cbn [for_each]. unfold bind.
  destruct (Hbody x st (or_introl eq_refl) HP) as [Hx HP1].
  destruct (body x st) as [c st1]. cbn [fst snd] in *. subst c.
  apply IH; [|exact HP1]. intros y st2 Hy. apply Hbody. right. exact Hy.
Qed.

(** The turn of a source whose configuration can be read and whose item
    directory can be made always completes, and leaves a configuration
    that can be read. *)
Lemma Fs_process_source_readable (w : World) (file : string) (st : Store) (src : Source) :
  files st !! Fs.source_path file = Some (SourceDoc src) ->
  mkdir_fails w (Fs.item_dir (sourceHash_of file)) = false ->
  fst (Fs.process_source w file st) = Normal tt
  /\ exists src', files (snd (Fs.process_source w file st)) !! Fs.source_path file
                  = Some (SourceDoc src').
Proof.
  intros Hsrc Hdir. pose proof (Fs_process_source_spec w file st) as H.
  rewrite Hsrc, Hdir in H. destruct H as (c & st' & Hc & ->). cbn [fst snd].
  split; [reflexivity|].
  destruct (Fs_cycle_spec _ _ _ _ _ _ _ Hc) as (r & _ & _ & _ & _ & Hun & Hmod).
  destruct (modified r) eqn:Hm.
  - specialize (Hmod eq_refl). destruct c as [[]|message].
    + destruct Hmod as (items & _ & _ & _ & Hdoc). eauto.
    + rewrite Hmod. eauto.
  - destruct (Hun eq_refl) as [_ ->]. eauto.
Qed.

Lemma R2_process_source_readable (w : World) (file : string) (st : Store) (src : Source) :
  files st !! Fs.source_path file = Some (SourceDoc src) ->
  fst (R2.process_source w file st) = Normal tt
  /\ exists src', files (snd (R2.process_source w file st)) !! Fs.source_path file
                  = Some (SourceDoc src').
Proof.
  intros Hsrc. pose proof (R2_process_source_spec w file st) as H.
  rewrite Hsrc in H. destruct H as (c & st' & Hc & ->). cbn [fst snd].
  split; [reflexivity|].
  destruct (R2_cycle_spec _ _ _ _ _ _ _ Hc) as (r & _ & _ & Hun & Hmod).
  destruct (modified r) eqn:Hm.
  - specialize (Hmod eq_refl). destruct c as [[]|message].
    + eauto.
    + rewrite Hmod. eauto.
  - destruct (Hun eq_refl) as [_ ->]. eauto.
Qed.

(** Making the item directory is outside the [try]: when it fails, the
    turn throws with the store as it was. *)
Lemma Fs_process_source_no_dir (w : World) (file : string) (st : Store) (src : Source) :
  files st !! Fs.source_path file = Some (SourceDoc src) ->
  mkdir_fails w (Fs.item_dir (sourceHash_of file)) = true ->
  exists message, Fs.process_source w file st = (Throw message, st).
Proof.
  intros Hsrc Hdir. pose proof (Fs_process_source_spec w file st) as H.
  rewrite Hsrc, Hdir in H. exact H.
Qed.

(** Failures inside the cycles are not fatal to a run.  When every listed
    source file holds a source configuration, the loop of the
    object-storage script runs to its end whatever the fetches, the
    parser, the writes and the uploads of the single cycles do, and the
    script completes.  The file-system script, once the sources directory
    is listed, makes the item directory of
    a source before the [try] of its cycle: when the item directory of
    every listed source can be made, its loop runs to its end as well, and
    the script completes exactly when it can write its marker file
    [items/.nojekyll], which then is empty; and the first listed source
    whose item directory cannot be made ends the run with an error. *)
Theorem run_survives_failing_cycles (w : World) (listing : list string) (st : Store) :
  (forall file, In file listing -> JS.endsWith ".json" file = true ->
     exists src, files st !! Fs.source_path file = Some (SourceDoc src)) ->
  fst (R2.main w listing st) = Normal tt
  /\ ((forall file, In file listing -> JS.endsWith ".json" file = true ->
         mkdir_fails w (Fs.item_dir (sourceHash_of file)) = false) ->
      (fst (Fs.main w listing st) = Normal tt
       <-> write_fails w (path_join ITEMS_ROOT ".nojekyll") = false)
      /\ (write_fails w (path_join ITEMS_ROOT ".nojekyll") = false ->
          files (snd (Fs.main w listing st)) !! path_join ITEMS_ROOT ".nojekyll"
          = Some (TextDoc EmptyString)))
  /\ (forall before file after,
        listing = (before ++ file :: after)%list ->
        JS.endsWith ".json" file = true ->
        (forall other, In other before -> JS.endsWith ".json" other = true ->
           mkdir_fails w (Fs.item_dir (sourceHash_of other)) = false) ->
        mkdir_fails w (Fs.item_dir (sourceHash_of file)) = true ->
        exists message, fst (Fs.main w listing st) = Throw message).
Proof.
  intros Hall.
  set (sel := fun file : string => JS.endsWith ".json" file = true).
  set (P := fun st' : Store =>
              forall file, In file (filter sel listing) ->
                exists src, files st' !! Fs.source_path file = Some (SourceDoc src)).
  assert (HP : P st).
  { intros file Hin. apply list_elem_of_In, list_elem_of_filter in Hin as [He Hin].
    apply Hall; [apply list_elem_of_In; exact Hin | exact He]. }
  assert (Hfs : forall x st', In x (filter sel listing) ->
                  mkdir_fails w (Fs.item_dir (sourceHash_of x)) = false -> P st' ->
                  fst (Fs.process_source w x st') = Normal tt
                  /\ P (snd (Fs.process_source w x st'))).
  { intros x st' Hx Hdir HP'. destruct (HP' x Hx) as [src Hsrc].
    destruct (Fs_process_source_readable w x st' src Hsrc Hdir) as [Hn Hkeep].
    split; [exact Hn|]. intros file Hin.
    destruct (decide (x = file)) as [->|Hne]; [exact Hkeep|].
    rewrite Fs_process_source_frame; [apply HP', Hin| |exact Hne].
    exact (selected_json _ _ Hx). }
  assert (Hr2 : forall x st', In x (filter sel listing) -> P st' ->
                  fst (R2.process_source w x st') = Normal tt
                  /\ P (snd (R2.process_source w x st'))).
  { intros x st' Hx HP'. destruct (HP' x Hx) as [src Hsrc].
    destruct (R2_process_source_readable w x st' src Hsrc) as [Hn Hkeep].
    split; [exact Hn|]. intros file Hin.
    destruct (decide (x = file)) as [->|Hne]; [exact Hkeep|].
    rewrite R2_process_source_frame; [apply HP', Hin| |exact Hne].
    exact (selected_json _ _ Hx). }
  split; [|split].
  - unfold R2.main. apply (for_each_completes P _ (filter sel listing) Hr2 st HP).
  - intros Hdirs.
    assert (Hloop : fst (for_each (Fs.process_source w) (filter sel listing) st) = Normal tt).
    { apply (for_each_completes P _ (filter sel listing)); [|exact HP].
      intros x st' Hx HP'. apply Hfs; auto.
      pose proof Hx as Hx'. apply list_elem_of_In, list_elem_of_filter in Hx' as [He Hin].
      apply Hdirs; [apply list_elem_of_In; exact Hin | exact He]. }
    unfold Fs.main, bind. fold sel.
    destruct (for_each (Fs.process_source w) (filter sel listing) st) as [c st1].
    cbn [fst] in Hloop. subst c. unfold writeFileSync.
    destruct (write_fails w (path_join ITEMS_ROOT ".nojekyll")); cbn [fst snd files].
    + split; [split; discriminate | discriminate].
    + split; [split; reflexivity|]. intros _. apply lookup_insert_eq.
  - intros before file after Hlist He Hdirs Hdir.
    assert (Hfilter : filter sel listing
                      = (filter sel before ++ file :: filter sel after)%list).
    { rewrite Hlist, filter_app, filter_cons_True by exact He. reflexivity. }
    assert (Hbefore : forall x, In x (filter sel before) -> In x (filter sel listing)).
    { intros x Hx. rewrite Hfilter. apply in_or_app. left. exact Hx. }
    assert (Hloop : fst (for_each (Fs.process_source w) (filter sel before) st) = Normal tt
                    /\ P (snd (for_each (Fs.process_source w) (filter sel before) st))).
    { apply (for_each_completes P _ (filter sel before)); [|exact HP].
      intros x st' Hx HP'. apply Hfs; auto.
      apply list_elem_of_In, list_elem_of_filter in Hx as [Hxe Hin].
      apply Hdirs; [apply list_elem_of_In; exact Hin | exact Hxe]. }
    unfold Fs.main, bind. fold sel. rewrite Hfilter, for_each_app.
    destruct (for_each (Fs.process_source w) (filter sel before) st) as [c st1].
    destruct Hloop as [Hn HP1]. cbn [fst snd] in Hn, HP1. subst c.
    destruct (HP1 file) as [src Hsrc].
    { rewrite Hfilter. apply in_or_app. right. left. reflexivity. }
    destruct (Fs_process_source_no_dir w file st1 src Hsrc Hdir) as [message Hthrow].
    cbn [for_each]. unfold bind. rewrite Hthrow. cbn [fst]. eauto.
Qed.

(** A world whose item directories cannot be made. *)
Lemma run_survives_failing_cycles_witness :
  fst (Fs.main (example_world reply_500 []) ["README.md"; "news.json"] example_store)
  = Normal tt
  /\ fst (R2.main (example_world (Throw "fetch failed") []) ["README.md"; "news.json"]
            example_store)
     = Normal tt
  /\ exists message,
       fst (Fs.main world_without_directories ["README.md"; "news.json"] example_store)
       = Throw message.
Proof.
  assert (H : forall file, In file ["README.md"; "news.json"] ->
                JS.endsWith ".json" file = true ->
                exists src, files example_store !! Fs.source_path file
                            = Some (SourceDoc src)).
  { intros file [<-|[<-|[]]] He; [discriminate He|]. eexists. reflexivity. }
  split; [|split].
  - apply (proj1 (proj1 (proj2 (run_survives_failing_cycles
                                  (example_world reply_500 []) _ example_store H))
                    (fun _ _ _ => eq_refl))).
    reflexivity.
  - apply (proj1 (run_survives_failing_cycles
                    (example_world (Throw "fetch failed") []) _ example_store H)).
  - apply (proj2 (proj2 (run_survives_failing_cycles
                           world_without_directories _ example_store H))
             ["README.md"] "news.json" [] eq_refl eq_refl).
    + intros other [<-|[]] He. discriminate He.
    + reflexivity.
Defined.

Lemma readSource_unreadable (path : string) (st : Store) :
  (forall src, files st !! path <> Some (SourceDoc src)) ->
  exists message, readSource path st = (Throw message, st).
Proof.
  intros H. unfold readSource.
  destruct (files st !! path) as [[| |src|]|]; eauto. destruct (H src eq_refl).
Qed.

(** A source file that cannot be read as a source configuration stops the
    whole run: reading it is outside the [try], so [main] ends with its
    error.  The store is then as the sources listed before it left it: the
    sources listed after it are not visited, and the file-system script
    does not write its marker file. *)
Theorem unreadable_source_stops_the_run (w : World) (before after : list string)
    (file : string) (st : Store) :
  JS.endsWith ".json" file = true ->
  ~ In file before ->
  (forall src, files st !! Fs.source_path file <> Some (SourceDoc src)) ->
  (exists message, fst (Fs.main w (before ++ file :: after)%list st) = Throw message)
  /\ snd (Fs.main w (before ++ file :: after)%list st)
     = snd (for_each (Fs.process_source w)
              (filter (fun f => JS.endsWith ".json" f = true) before) st)
  /\ (exists message, fst (R2.main w (before ++ file :: after)%list st) = Throw message)
  /\ snd (R2.main w (before ++ file :: after)%list st)
     = snd (R2.main w before st).
Proof.
  intros He Hnotin Hbad.
  set (sel := fun f : string => JS.endsWith ".json" f = true).
  assert (Hfilter : filter sel (before ++ file :: after)%list
                    = (filter sel before ++ file :: filter sel after)%list).
  { rewrite filter_app, filter_cons_True by exact He. reflexivity. }
  assert (Hfs : forall st1,
             st1 = snd (for_each (Fs.process_source w) (filter sel before) st) ->
             forall src, files st1 !! Fs.source_path file <> Some (SourceDoc src)).
  { intros st1 -> src.
    assert (Hsame : files (snd (for_each (Fs.process_source w) (filter sel before) st))
                      !! Fs.source_path file = files st !! Fs.source_path file);
      [|rewrite Hsame; apply Hbad].
    clear Hfilter. revert st Hbad. induction before as [|x before IH]; intros st Hbad;
      [reflexivity|].
    assert (Hx : x <> file) by (intros ->; apply Hnotin; left; reflexivity).
    assert (Hrest : ~ In file before) by (intros H; apply Hnotin; right; exact H).
    destruct (decide (sel x)) as [Hs|Hs].
    - rewrite filter_cons_True by exact Hs. cbn [for_each]. unfold bind.
      pose proof (Fs_process_source_frame w file x st Hs Hx) as Hframe.
      destruct (Fs.process_source w x st) as [[[]|message] st1]; cbn [snd] in *;
        [|exact Hframe].
      rewrite IH; auto. intros src'. rewrite Hframe. apply Hbad.
    - rewrite filter_cons_False by exact Hs. apply IH; auto. }
  assert (Hr2 : forall st1,
             st1 = snd (for_each (R2.process_source w) (filter sel before) st) ->
             forall src, files st1 !! Fs.source_path file <> Some (SourceDoc src)).
  { intros st1 -> src.
    assert (Hsame : files (snd (for_each (R2.process_source w) (filter sel before) st))
                      !! Fs.source_path file = files st !! Fs.source_path file);
      [|rewrite Hsame; apply Hbad].
    clear Hfilter Hfs. revert st Hbad.
    induction before as [|x before IH]; intros st Hbad; [reflexivity|].
    assert (Hx : x <> file) by (intros ->; apply Hnotin; left; reflexivity).
    assert (Hrest : ~ In file before) by (intros H; apply Hnotin; right; exact H).
    destruct (decide (sel x)) as [Hs|Hs].
    - rewrite filter_cons_True by exact Hs. cbn [for_each]. unfold bind.
      pose proof (R2_process_source_frame w file x st Hs Hx) as Hframe.
      destruct (R2.process_source w x st) as [[[]|message] st1]; cbn [snd] in *;
        [|exact Hframe].
      rewrite IH; auto. intros src'. rewrite Hframe. apply Hbad.
    - rewrite filter_cons_False by exact Hs. apply IH; auto. }
  assert (Hstop_fs : forall st1, (forall src, files st1 !! Fs.source_path file
                                              <> Some (SourceDoc src)) ->
             exists message,
               for_each (Fs.process_source w) (file :: filter sel after) st1
               = (Throw message, st1)).
  { intros st1 H1. destruct (readSource_unreadable _ _ H1) as [message Hread].
    exists message. cbn [for_each]. unfold bind at 1, Fs.process_source, bind.
    rewrite Hread. reflexivity. }
  assert (Hstop_r2 : forall st1, (forall src, files st1 !! Fs.source_path file
                                              <> Some (SourceDoc src)) ->
             exists message,
               for_each (R2.process_source w) (file :: filter sel after) st1
               = (Throw message, st1)).
  { intros st1 H1. destruct (readSource_unreadable _ _ H1) as [message Hread].
    exists message. cbn [for_each]. unfold bind at 1, R2.process_source, bind.
    rewrite Hread. reflexivity. }
  unfold Fs.main, R2.main, bind. fold sel. rewrite Hfilter, !for_each_app.
  specialize (Hfs _ eq_refl). specialize (Hr2 _ eq_refl).
  destruct (for_each (Fs.process_source w) (filter sel before) st) as [[[]|m1] s1];
    destruct (for_each (R2.process_source w) (filter sel before) st) as [[[]|m2] s2];
    cbn [snd] in *;
    try (destruct (Hstop_fs s1 Hfs) as [mf ->]);
    try (destruct (Hstop_r2 s2 Hr2) as [mr ->]);
    cbn [fst snd]; eauto 10.
Qed.

Lemma unreadable_source_stops_the_run_witness :
  (exists message,
      fst (Fs.main world_old ["news.json"; "broken.json"; "other.json"]
             store_with_broken_source) = Throw message)
  /\ files (snd (Fs.main world_old ["news.json"; "broken.json"; "other.json"]
                   store_with_broken_source))
       !! Fs.source_path "other.json" = Some (SourceDoc example_source)
  /\ files (snd (Fs.main world_old ["news.json"; "broken.json"; "other.json"]
                   store_with_broken_source))
       !! path_join ITEMS_ROOT ".nojekyll" = None.
Proof.
  destruct (unreadable_source_stops_the_run world_old ["news.json"] ["other.json"]
              "broken.json" store_with_broken_source) as (Hthrow & Hstore & _).
  - reflexivity.
  - intros [[=]|[]].
  - intros src. vm_compute. discriminate.
  - split; [exact Hthrow|]. cbn [app] in Hstore. rewrite Hstore.
    split; by_evaluation.
Defined.

(** ** Footprint of a turn *)

Lemma R2_sync_items_footprint (w : World) (file sourceHash : string)
    (items : list RawItem) :
  forall (i : nat) (manifest : list ManifestEntry) (st st1 : Store)
         (c : completion (list ManifestEntry)) (p : string),
    R2.sync_items w file sourceHash i items manifest st = (c, st1) ->
    (forall key, p <> R2.item_key sourceHash key) ->
    bucket st1 !! p = bucket st !! p.
Proof.
  induction items as [|x rest IH]; intros i manifest st st1 c p.
  - intros [= <- <-]. reflexivity.
  - cbn [R2.sync_items]. unfold bind at 1.
    destruct (JS.or (raw_guid x) (raw_link x)) as [idx|]; cbn [getHash_of ret throw];
      [|intros [= <- <-]; reflexivity].
    unfold bind at 1. rewrite uploadToR2_cases. intros Hrest Hp.
    rewrite (IH _ _ _ _ _ _ Hrest Hp).
    destruct (put_fails w _); [reflexivity|]. cbn [bucket].
    apply lookup_insert_ne. apply not_eq_sym, Hp.
Qed.

(** The turn of a source touches only what belongs to that source.  In
    the file-system script it can change the files at the item paths of
    the source, that is, the paths that [path.join] makes of the item
    directory of the source and the keys of identifiers, and the manifest
    and the configuration of the source, and no other file; and it never
    touches the bucket.  In the object-storage script it can change the
    item objects and the manifest object of the source in the bucket and
    its configuration on disk, and nothing else.  The manifest and the
    configuration of a source are safe from the turns of the other
    sources that [main] selects, in both scripts. *)
Theorem turn_touches_only_its_source (w : World) (file : string) (st : Store) :
  (forall p,
      (forall id, p <> Fs.item_path (sourceHash_of file) (getHash id)) ->
      p <> Fs.manifest_path (sourceHash_of file) -> p <> Fs.source_path file ->
      files (snd (Fs.process_source w file st)) !! p = files st !! p)
  /\ bucket (snd (Fs.process_source w file st)) = bucket st
  /\ (forall p, p <> Fs.source_path file ->
        files (snd (R2.process_source w file st)) !! p = files st !! p)
  /\ (forall p,
        (forall key, p <> R2.item_key (sourceHash_of file) key) ->
        p <> R2.manifest_key (sourceHash_of file) ->
        bucket (snd (R2.process_source w file st)) !! p = bucket st !! p)
  /\ (forall other,
        JS.endsWith ".json" file = true ->
        sourceHash_of other <> sourceHash_of file ->
        let st' := snd (Fs.process_source w file st) in
        let st'' := snd (R2.process_source w file st) in
        files st' !! Fs.manifest_path (sourceHash_of other)
        = files st !! Fs.manifest_path (sourceHash_of other)
        /\ files st' !! Fs.source_path other = files st !! Fs.source_path other
        /\ files st'' !! Fs.source_path other = files st !! Fs.source_path other
        /\ bucket st'' !! R2.manifest_key (sourceHash_of other)
           = bucket st !! R2.manifest_key (sourceHash_of other)).
Proof.
  assert (Hfs : forall p,
             (forall id, p <> Fs.item_path (sourceHash_of file) (getHash id)) ->
             p <> Fs.manifest_path (sourceHash_of file) -> p <> Fs.source_path file ->
             files (snd (Fs.process_source w file st)) !! p = files st !! p).
  { intros p Hitem Hman Hsrc.
    destruct (Fs_process_source_cases w file st) as [->|(src & c & _ & _ & Hc & _)];
      [reflexivity|].
    destruct (Fs_cycle_spec _ _ _ _ _ _ _ Hc) as (_ & _ & _ & _ & Hframe & _).
    apply Hframe; assumption. }
  assert (Hr2 : forall p,
             (forall key, p <> R2.item_key (sourceHash_of file) key) ->
             p <> R2.manifest_key (sourceHash_of file) ->
             bucket (snd (R2.process_source w file st)) !! p = bucket st !! p).
  { intros p Hitem Hman.
    unfold R2.process_source, bind, readSource, try_catch, ret.
    destruct (files st !! Fs.source_path file) as [[| |src|]|]; try reflexivity.
    assert (H : bucket (snd (R2.cycle w file (sourceHash_of file) src st)) !! p
                = bucket st !! p).
    { unfold R2.cycle. unfold bind at 1.
      destruct (fetchFeed_total w (base64_decode w (u src)) (etag src) (lastModified src) st)
        as [r ->].
      destruct (modified r); [|reflexivity].
      unfold bind at 1, lift.
      destruct (parseString w (default EmptyString (xml r))) as [items|message];
        [|reflexivity].
      unfold bind at 1.
      destruct (R2.sync_items w file (sourceHash_of file) 0 items [] st)
        as [[manifest|message] st1] eqn:Hs;
        pose proof (R2_sync_items_footprint _ _ _ _ _ _ _ _ _ p Hs Hitem) as Hf;
        [|exact Hf].
      unfold bind at 1. rewrite uploadToR2_cases. unfold writeFileSync.
      destruct (put_fails w _); destruct (write_fails w _); cbn [snd files bucket];
        rewrite ?lookup_insert_ne by auto; exact Hf. }
    destruct (R2.cycle w file (sourceHash_of file) src st) as [[[]|message] st'];
      exact H. }
  assert (Hfiles : forall p, p <> Fs.source_path file ->
             files (snd (R2.process_source w file st)) !! p = files st !! p).
  { intros p Hp. pose proof (R2_process_source_spec w file st) as H.
    destruct (files st !! Fs.source_path file) as [[| |src|]|];
      try (destruct H as [message ->]; reflexivity).
    destruct H as (c & st' & Hc & ->). cbn [snd].
    destruct (R2_cycle_spec _ _ _ _ _ _ _ Hc) as (_ & _ & Hframe & _). auto. }
  split; [exact Hfs|]. split; [|split; [exact Hfiles|split; [exact Hr2|]]].
  - destruct (Fs_process_source_cases w file st) as [->|(src & c & _ & _ & Hc & _)];
      [reflexivity|].
    destruct (Fs_cycle_spec _ _ _ _ _ _ _ Hc) as (_ & _ & Hb & _). exact Hb.
  - intros other Hjson Hne st' st''. subst st' st''.
    assert (Hother : Fs.source_path other <> Fs.source_path file).
    { intros Heq. symmetry in Heq. apply source_path_inj in Heq; [|exact Hjson].
      apply Hne. rewrite Heq. reflexivity. }
    split; [|split; [|split]].
    + apply Hfs.
      * intros id. apply hash_path_not_manifest.
      * rewrite !manifest_path_shape. intros Heq. apply Hne.
        injection Heq as Heq. rewrite !app_empty_l in Heq.
        apply app_inv_tail_str in Heq. exact Heq.
      * apply source_path_not_manifest.
    + apply Hfs.
      * intros id. apply hash_path_not_source.
      * apply not_eq_sym, source_path_not_manifest.
      * exact Hother.
    + apply Hfiles, Hother.
    + apply Hr2.
      * intros key. unfold R2.manifest_key, R2.item_key. discriminate.
      * unfold R2.manifest_key. intros Heq. apply Hne.
        injection Heq as Heq. rewrite !app_empty_l in Heq.
        apply app_inv_tail_str in Heq. exact Heq.
Qed.

(** ** The earlier copy of the file-system script *)



(** ** The two scripts side by side *)

Lemma wrapTitle_with_single_segment (sep title link : string) :
  JS.includes sep title = false -> wrapTitle_with sep title link = h1 link title.
Proof.
  intros H. rewrite wrapTitle_with_shape.
  unfold JS.split. rewrite (split_from_without_sep _ _ H).
  cbn [hd tl map String.concat]. apply app_empty_r.
Qed.

(** On the same feed the two scripts publish the same manifest (the
    object-storage script when the upload of the manifest is not
    rejected), and the documents they build for an item agree in every
    field but the title; the titles agree too when the title of the item
    holds neither of the two separators. *)
Theorem scripts_agree_but_for_titles (w : World) (file sourceHash : string)
    (src : Source) (st st1 st2 : Store) (r : FetchResult) :
  fetchFeed w (base64_decode w (u src)) (etag src) (lastModified src) st = (Normal r, st) ->
  modified r = true ->
  Fs.cycle w file sourceHash src st = (Normal tt, st1) ->
  R2.cycle w file sourceHash src st = (Normal tt, st2) ->
  put_fails w (R2.manifest_key sourceHash) = false ->
  (exists manifest,
      files st1 !! Fs.manifest_path sourceHash = Some (ManifestDoc manifest)
      /\ bucket st2 !! R2.manifest_key sourceHash = Some (ManifestDoc manifest))
  /\ (forall (item : Item),
        let fs_item := prettifyItem (sanitizeHtml w) item sourceHash in
        let r2_item := R2.prettifyItem (sanitizeHtml w) item sourceHash in
        guid r2_item = guid fs_item /\ link r2_item = link fs_item
        /\ pubDate r2_item = pubDate fs_item /\ timestamp r2_item = timestamp fs_item
        /\ description r2_item = description fs_item
        /\ source r2_item = source fs_item /\ category r2_item = category fs_item
        /\ (JS.includes TITLE_SEP (JS.or_str (title item) "No Title") = false ->
            JS.includes TITLE_SEP_R2 (JS.or_str (title item) "No Title") = false ->
            title r2_item = title fs_item)).
Proof.
  intros Hr Hm Hfs Hr2 Hput. split.
  - destruct (Fs_cycle_spec _ _ _ _ _ _ _ Hfs) as (r' & Hr' & _ & _ & _ & _ & Hmod).
    assert (r' = r) as -> by congruence.
    destruct (Hmod Hm) as (items & Hparse & _ & Hman & _).
    exists (map manifest_entry items). split; [exact Hman|].
    unfold R2.cycle in Hr2. unfold bind at 1 in Hr2. rewrite Hr, Hm in Hr2.
    unfold bind at 1, lift in Hr2. rewrite Hparse in Hr2. unfold bind at 1 in Hr2.
    destruct (R2.sync_items w file sourceHash 0 items [] st) as [[manifest|message] s1] eqn:Hs;
      [|discriminate].
    destruct (R2_sync_items_spec _ _ _ _ _ _ _ _ _ Hs) as (_ & Hm').
    destruct (Hm' _ eq_refl) as [-> _]. cbn [app] in Hr2.
    unfold bind at 1 in Hr2. rewrite uploadToR2_cases, Hput in Hr2.
    unfold writeFileSync in Hr2. cbn [files bucket] in Hr2.
    destruct (write_fails w (Fs.source_path file)); [discriminate|].
    injection Hr2 as <-. cbn [bucket]. apply lookup_insert_eq.
  - intros item. cbv zeta. repeat split.
    intros H1 H2. unfold R2.prettifyItem, prettifyItem. cbn [prettifyItem_with title].
    rewrite (wrapTitle_with_single_segment _ _ _ H1),
            (wrapTitle_with_single_segment _ _ _ H2). reflexivity.
Qed.

Lemma scripts_agree_but_for_titles_witness :
  exists manifest,
    files (snd (Fs.cycle world_old "news.json" "news" example_source example_store))
      !! Fs.manifest_path "news" = Some (ManifestDoc manifest)
    /\ bucket (snd (R2.cycle world_old "news.json" "news" example_source example_store))
         !! R2.manifest_key "news" = Some (ManifestDoc manifest).
Proof.
  refine (proj1 (scripts_agree_but_for_titles world_old "news.json" "news"
                   example_source example_store _ _
                   {| modified := true; xml := Some "<rss/>"; res_etag := Some "v2";
                      res_lastModified := None; error := None |} _ _ _ _ _));
    by_evaluation.
Defined.

(** ** Timestamp of a stored item *)

(** The timestamp that the file-system script stores.  For a key whose
    path held nothing before the item loop, the timestamp on disk after
    the loop is that of the first entry of the feed with the key: the
    parse of its publish date when that is a number other than zero, and
    otherwise (an absent or unparseable date, or a date that parses to
    zero) the reading of the clock in the turn of that entry.  Later runs
    keep it. *)
Theorem stored_timestamp_rule (w : World) (file sourceHash : string)
    (items : list RawItem) (manifest manifest' : list ManifestEntry)
    (st st1 : Store) (key : string) (j : nat) (item : RawItem) :
  Fs.sync_items w file sourceHash 0 items manifest st = (Normal manifest', st1) ->
  files st !! Fs.item_path sourceHash key = None ->
  first_with_key key 0 items = Some (j, item) ->
  timestamp <$> stored_item (files st1) (Fs.item_path sourceHash key)
  = Some (match Date_parse w (raw_pubDate item) with
          | JS.NaN => Date_now w file j
          | JS.Num z => if z =? 0 then Date_now w file j else z
          end).
Proof.
  intros Hs Hnone Hfirst. unfold stored_item.
  rewrite (Fs_sync_items_first_writer _ _ _ _ _ _ _ _ _ _ Hs Hnone), Hfirst.
  reflexivity.
Qed.

Lemma stored_timestamp_rule_witness :
  timestamp <$> stored_item
    (files (snd (Fs.sync_items world_old "news.json" "news" 0 two_items [] example_store)))
    (Fs.item_path "news" (getHash "https://example.org/post/2"))
  = Some nov_3_millis.
Proof.
  refine (stored_timestamp_rule world_old "news.json" "news" two_items []
            (map manifest_entry two_items) example_store _
            (getHash "https://example.org/post/2") 1 second_item _ _ _);
    by_evaluation.
Defined.
